(** * Generalization measures of a trained network: a shallow embedding

    The development follows the three Python sources of the repository:
    - [norms/measures.py]: per-layer norms, their aggregation over the module
      tree, the path-norm and the weight perturbation;
    - [train.py]: the PAC-Bayes term, [validate], the sharpness and the
      model selection of its [main];
    - [main.py]: its own [validate] and [main].

    Python floats and tensor entries are idealised as real numbers: rounding,
    overflow and infinities are out of scope. Where the code can produce a
    nan from real inputs (a root of a negative number, the percentile of no
    data) the value is an option. Exceptions are modelled by the [res]
    type. *)

From Stdlib Require Import Reals Lra Lia ZArith.
From stdpp Require Import base option list strings gmap sorting.

#[local] Set Warnings "-register-all".

(** ** Python results *)

Module Py.

Inductive exn : Type :=
| TypeError
| ValueError
| ZeroDivisionError
| IndexError
| RuntimeError
| UnboundLocalError (var : string).

(** [UnboundLocalError] is a subclass of [NameError]. *)
Definition is_NameError (e : exn) : bool :=
  match e with UnboundLocalError _ => true | _ => false end.

Inductive res (A : Type) : Type :=
| Ok (a : A)
| Raise (e : exn).
Arguments Ok {A} a.
Arguments Raise {A} e.

Definition bind {A B : Type} (m : res A) (k : A -> res B) : res B :=
  match m with
  | Ok a => k a
  | Raise e => Raise e
  end.

#[global] Instance R_eq_dec : EqDecision R := Req_dec_T.

(** [math.log]: a [ValueError] outside of the positive numbers. *)
Definition math_log (x : R) : res R :=
  if Rlt_dec 0 x then Ok (ln x) else Raise ValueError.

(** [math.sqrt]: a [ValueError] on a negative number. *)
Definition math_sqrt (x : R) : res R :=
  if Rle_dec 0 x then Ok (sqrt x) else Raise ValueError.

(** True division [x / y] of Python numbers. *)
Definition truediv (x y : R) : res R :=
  if Req_dec_T y 0 then Raise ZeroDivisionError else Ok (x / y)%R.

(** [x ← m; k] runs [m] and, unless it raised, continues with [k]. *)
#[global] Instance res_bind : MBind res := fun A B k m => bind m k.
#[global] Instance res_ret : MRet res := @Ok.

End Py.
Import Py.

(** ** norms/measures.py *)

Module Measures.
Local Open Scope R_scope.

(** A weight tensor seen through [view(size(0), -1)]: one row per output
    unit, all other dimensions flattened together. *)
Definition matrix : Type := list (list R).

(** A [torch.nn.Module]: its class name, as [_get_name()] returns it, its
    weight and its direct children. *)
Inductive nn_module : Type :=
  NNModule (name : string) (weight : matrix) (children : list nn_module).

Definition get_name (m : nn_module) : string :=
  match m with NNModule n _ _ => n end.
Definition weight (m : nn_module) : matrix :=
  match m with NNModule _ w _ => w end.
Definition children (m : nn_module) : list nn_module :=
  match m with NNModule _ _ c => c end.

(** [module_name in ['Linear', 'Conv1d', 'Conv2d', 'Conv3d']] *)
Definition is_layer (module_name : string) : bool :=
  bool_decide (module_name ∈ ["Linear"; "Conv1d"; "Conv2d"; "Conv3d"]%string).

(** [for child in module]: the containers [Sequential] and [ModuleList]
    iterate over their children; a layer, an activation or any other
    module without [__iter__] is not iterable and the loop raises a
    [TypeError]. A [ModuleDict], which iterates over its keys, is outside
    what is modelled here: it is taken as not iterable. *)
Definition iterable (module_name : string) : bool :=
  bool_decide (module_name ∈ ["Sequential"; "ModuleList"]%string).

(** The order of a norm: a non-negative integer or [float('Inf')]. *)
Inductive order : Type :=
| Ord (p : nat)
| OrdInf.

Definition sum_R (v : list R) : R := foldr Rplus 0 v.
Definition prod_R (v : list R) : R := foldr Rmult 1 v.

(** [x ** (1 / n)] on a non-negative [x]. *)
Definition nth_root (n : nat) (x : R) : R :=
  if Rlt_dec 0 x then Rpower x (/ INR n) else 0.

Definition count_nonzero (v : list R) : nat :=
  length (filter (fun x => x <> 0) v).

(** [Tensor.norm(p)] of a vector: the largest absolute value for the
    infinite order, the number of non-zero entries for order 0, and
    [(sum |x|^p)^(1/p)] otherwise. On a vector without entries the
    infinite order has the value 0 here; torch has no value for it. *)
Definition vec_norm (p : order) (v : list R) : R :=
  match p with
  | OrdInf => foldr Rmax 0 (map Rabs v)
  | Ord 0 => INR (count_nonzero v)
  | Ord n => nth_root n (sum_R (map (fun x => Rabs x ^ n) v))
  end.

(** [t.view(rows, -1)] of a tensor that has [rows] rows: refused for no
    rows, where the other dimension cannot be inferred. *)
Definition view_rows (t : matrix) (rows : nat) : res matrix :=
  if decide (rows = 0%nat) then Raise RuntimeError else Ok t.

(** The value of [norm(module, p, q)]: the l_p norm of each row, then the
    l_q norm of these. The call itself first takes
    [module.weight.view(module.weight.size(0), -1)], which is refused for
    a weight without rows: [calc_norm_loop] has this step before the
    value. *)
Definition norm (module : nn_module) (p q : order) : R :=
  vec_norm q (map (vec_norm p) (weight module)).

(** The loop of [calc_norm]; [self] stands for the recursive call, whose
    returned value the loop drops: only an exception of it is seen. *)
Definition calc_norm_loop (self : nn_module -> R -> res R) (p q : order)
  : list nn_module -> R -> res R :=
  fix loop (module_list : list nn_module) (result : R) : res R :=
    match module_list with
    | [] => Ok (exp result)
    | child :: rest =>
        if is_layer (get_name child) then
          _ ← view_rows (weight child) (length (weight child));
          l ← math_log (norm child p q);
          loop rest (result + l)
        else
          _ ← self child result;
          loop rest result
    end.

Fixpoint calc_norm (module_list : nn_module) (p q : order) (result : R)
  : res R :=
  match module_list with
  | NNModule name _ ch =>
      if iterable name then
        calc_norm_loop (fun child r => calc_norm child p q r) p q ch result
      else Raise TypeError
  end.

(** *** Spectral norm *)

Section Spectral.
(** The singular values that [Tensor.svd()] returns for a matrix. *)
Variable svd_S : matrix -> list R.

(** The value of [op_norm(module, p)]: the l_p norm of the singular
    values, for a weight that has rows; the refusal of [view(0, -1)] for a
    weight without rows is outside what is modelled here. *)
Definition op_norm (module : nn_module) (p : order) : R :=
  vec_norm p (svd_S (weight module)).

Definition calc_spectral_norm_loop (self : nn_module -> R -> res R)
  (p : order) : list nn_module -> R -> res R :=
  fix loop (cs : list nn_module) (result : R) : res R :=
    match cs with
    | [] => Ok (exp result)
    | child :: rest =>
        if is_layer (get_name child) then
          l ← math_log (op_norm child p);
          loop rest (result + l)
        else
          _ ← self child result;
          loop rest result
    end.

(** The loop runs over [list(model.children())], which every module
    has. *)
Fixpoint calc_spectral_norm (model : nn_module) (p : order) (result : R)
  : res R :=
  match model with
  | NNModule _ _ ch =>
      calc_spectral_norm_loop
        (fun child r => calc_spectral_norm child p r) p ch result
  end.
End Spectral.

(** *** Weight perturbation *)

(** What is assigned to an attribute that holds a tensor: a plain tensor,
    as the arithmetic of torch returns it, or a [torch.nn.Parameter]. *)
Inductive tensor_value : Type :=
| PlainTensor (entries : matrix)
| AsParameter (entries : matrix).

(** [module.weight = value]: [weight] is a registered parameter of a
    layer, for which [Module.__setattr__] accepts a [Parameter] only; a
    plain tensor is a [TypeError]. *)
Definition setattr_weight (module : nn_module) (value : tensor_value)
  : res nn_module :=
  match value with
  | AsParameter w' => Ok (NNModule (get_name module) w' (children module))
  | PlainTensor _ => Raise TypeError
  end.

(** [module.weight = alpha * (torch.abs(module.weight) + 1)]; the right
    hand side is a plain tensor. *)
Definition add_module_perturbation (module : nn_module) (alpha : R)
  : res nn_module :=
  setattr_weight module
    (PlainTensor (map (map (fun x => alpha * (Rabs x + 1))) (weight module))).

(** The module objects are updated in place; the functions return the
    tree as it is after the call. *)
Definition add_perturbation_loop (self : nn_module -> res nn_module)
  (alpha : R) : list nn_module -> res (list nn_module) :=
  fix loop (module_list : list nn_module) : res (list nn_module) :=
    match module_list with
    | [] => Ok []
    | child :: rest =>
        child' ← (if is_layer (get_name child)
                  then add_module_perturbation child alpha
                  else self child);
        rest' ← loop rest;
        Ok (child' :: rest')
    end.

Fixpoint add_perturbation (module_list : nn_module) (alpha : R)
  : res nn_module :=
  match module_list with
  | NNModule n w ch =>
      if iterable n then
        ch' ← add_perturbation_loop
                (fun child => add_perturbation child alpha) alpha ch;
        Ok (NNModule n w ch')
      else Raise TypeError
  end.

(** The default [alpha=5e-4]. *)
Definition default_alpha : R := 5 / 10000.

(** *** Path norm *)

(** A parameter tensor: its [requires_grad] flag and its entries. *)
Record parameter : Type :=
  Param { requires_grad : bool; data : list R }.

(** Parameter objects live in a store; two models that hold the same
    location share that parameter. *)
Definition loc : Type := positive.
Abbreviation store := (gmap loc parameter).

Record tensor : Type := Tensor { shape : list nat; entries : list R }.

(** A model as [lp_path_norm] uses it: the parameters that
    [parameters()] lists (each one once), the training flag, and the
    forward pass, which maps the flag, the values of the parameters and
    an input to the output entries. *)
Record torch_model : Type := TorchModel {
  parameters : list loc;
  training : bool;
  forward : bool -> list (list R) -> tensor -> list R
}.

(** Computations on the store that may raise. *)
Definition st (A : Type) : Type := store -> store * res A.

Definition st_ret {A : Type} (a : A) : st A := fun h => (h, Ok a).
Definition st_raise {A : Type} (e : exn) : st A := fun h => (h, Raise e).
Definition st_bind {A B : Type} (m : st A) (k : A -> st B) : st B :=
  fun h =>
    match m h with
    | (h', Ok a) => k a h'
    | (h', Raise e) => (h', Raise e)
    end.
#[global] Instance st_mret : MRet st := @st_ret.
#[global] Instance st_mbind : MBind st := fun A B k m => st_bind m k.

(** Reading a parameter; a location outside the store does not occur in
    Python and is reported as a [RuntimeError]. *)
Definition get_param (l : loc) : st parameter :=
  fun h =>
    match h !! l with
    | Some prm => (h, Ok prm)
    | None => (h, Raise RuntimeError)
    end.

Definition alloc (prm : parameter) : st loc :=
  fun h => let l := fresh (dom h) in (<[l := prm]> h, Ok l).

(** An elementwise in-place operation on a parameter, which is a leaf of
    the autograd graph. [grad_enabled] is torch's grad mode at the call:
    on unless the caller is inside [torch.no_grad()]. While it is on,
    torch refuses an in-place operation on a leaf that requires grad with
    a [RuntimeError]. *)
Definition map_ (grad_enabled : bool) (f : R -> R) (l : loc) : st unit :=
  fun h =>
    match h !! l with
    | Some prm =>
        if grad_enabled && requires_grad prm then (h, Raise RuntimeError)
        else (<[l := Param (requires_grad prm) (map f (data prm))]> h, Ok tt)
    | None => (h, Raise RuntimeError)
    end.

Definition abs_ (grad_enabled : bool) (l : loc) : st unit :=
  map_ grad_enabled Rabs l.
Definition pow_ (grad_enabled : bool) (p : nat) (l : loc) : st unit :=
  map_ grad_enabled (fun x => x ^ p) l.

Fixpoint copy_params (ls : list loc) : st (list loc) :=
  match ls with
  | [] => mret []
  | l :: rest =>
      prm ← get_param l;
      l' ← alloc prm;
      rest' ← copy_params rest;
      mret (l' :: rest')
  end.

(** [copy.deepcopy(model)]: every parameter is copied to a new
    location. *)
Definition deepcopy (model : torch_model) : st torch_model :=
  ls ← copy_params (parameters model);
  mret (TorchModel ls (training model) (forward model)).

(** [model.eval()] *)
Definition eval (model : torch_model) : torch_model :=
  TorchModel (parameters model) false (forward model).

Fixpoint read_params (ls : list loc) : st (list (list R)) :=
  match ls with
  | [] => mret []
  | l :: rest =>
      prm ← get_param l;
      rest' ← read_params rest;
      mret (data prm :: rest')
  end.

(** [model(x)] *)
Definition call (model : torch_model) (x : tensor) : st (list R) :=
  vals ← read_params (parameters model);
  mret (forward model (training model) vals x).

(** [torch.ones(input_size)] *)
Definition ones (input_size : list nat) : tensor :=
  Tensor input_size (replicate (foldr Nat.mul 1%nat input_size) 1).

(** [y ** (1 / p)] on a tensor entry, for [p >= 1]: the entry itself
    for [p = 1], and a nan, here [None], on a negative entry
    otherwise. *)
Definition pow_inv (y : R) (p : nat) : option R :=
  if decide (p = 1%nat) then Some y
  else if Rle_dec 0 y then Some (nth_root p y)
  else None.

(** The loop [for param in tmp_model.parameters()]. *)
Fixpoint abs_pow_params (grad_enabled : bool) (ls : list loc) (p : nat)
  : st unit :=
  match ls with
  | [] => mret tt
  | l :: rest =>
      prm ← get_param l;
      _ ← (if requires_grad prm
           then (_ ← abs_ grad_enabled l; pow_ grad_enabled p l)
           else mret tt);
      abs_pow_params grad_enabled rest p
  end.

(** [lp_path_norm(model, device, p, input_size)], called in the grad mode
    [grad_enabled]. The device only places the tensors and does not
    appear. *)
Definition lp_path_norm (grad_enabled : bool) (model : torch_model) (p : nat)
  (input_size : list nat) : st (option R) :=
  tmp_model ← deepcopy model;
  let tmp_model := eval tmp_model in
  _ ← abs_pow_params grad_enabled (parameters tmp_model) p;
  let data_ones := ones input_size in
  out ← call tmp_model data_ones;
  if decide (p = 0%nat) then st_raise ZeroDivisionError
  else mret (pow_inv (sum_R out) p).

(** *** Depth and number of parameters *)

(** [depth(module)]: always 1. *)
Definition depth (module : nn_module) : nat := 1.

(** The loop of [get_depth]; the value of the call on a child that is not
    a layer is dropped. *)
Definition get_depth_loop (self : nn_module -> nat)
  : list nn_module -> nat -> nat :=
  fix loop (cs : list nn_module) (result : nat) : nat :=
    match cs with
    | [] => result
    | child :: rest =>
        if is_layer (get_name child) then loop rest (result + depth child)%nat
        else let _ := self child in loop rest result
    end.

Fixpoint get_depth (model : nn_module) : nat :=
  match model with
  | NNModule _ _ ch => get_depth_loop (fun child => get_depth child) ch 0%nat
  end.

Section Bias.
(** [module.bias]: [None] or a vector; the module tree does not carry
    it. *)
Variable bias : nn_module -> option (list R).

(** [n_param(module)]: the length of the bias plus rows times columns of
    the weight seen as a matrix; [view(0, -1)] of a weight without rows is
    refused. *)
Definition n_param (module : nn_module) : res nat :=
  let bparam :=
    match bias module with
    | None => 0%nat
    | Some b => length b
    end in
  match weight module with
  | [] => Raise RuntimeError
  | row :: _ => Ok (bparam + length (weight module) * length row)%nat
  end.

(** The loop of [get_npara]; on a child that is not a layer it calls
    [get_depth] and drops the value. *)
Fixpoint get_npara_loop (cs : list nn_module) (result : nat) : res nat :=
  match cs with
  | [] => Ok result
  | child :: rest =>
      if is_layer (get_name child) then
        n ← n_param child;
        get_npara_loop rest (result + n)%nat
      else
        let _ := get_depth child in
        get_npara_loop rest result
  end.

Definition get_npara (model : nn_module) : res nat :=
  get_npara_loop (children model) 0%nat.
End Bias.

(** *** Distance from the initialisation *)

(** [a - b] for two weights of the same shape, which a module and its
    copy at initialisation have. Torch broadcasts some other shapes; this
    is not modelled, they are refused here. *)
Definition tensor_sub (a b : matrix) : res matrix :=
  if bool_decide (map length a = map length b)
  then Ok (zip_with (zip_with Rminus) a b)
  else Raise RuntimeError.

(** [distance(module, init_module, p, q)] *)
Definition distance (module init_module : nn_module) (p q : order) : res R :=
  diff ← tensor_sub (weight module) (weight init_module);
  reshaped ← view_rows diff (length (weight module));
  Ok (vec_norm q (map (vec_norm p) reshaped)).

(** [n_hidden(module, init_module)] as a call with positional arguments:
    it takes exactly two. *)
Definition n_hidden (args : list nn_module) : res nat :=
  match args with
  | [module; init_module] => Ok (length (weight module))
  | _ => Raise TypeError
  end.

(** [1 / q] for an order [q]. *)
Definition inv_order (q : order) : res R :=
  match q with
  | Ord 0 => Raise ZeroDivisionError
  | Ord n => Ok (/ INR n)
  | OrdInf => Ok 0
  end.

(** [x ** e] for a number [x >= 0]. *)
Definition py_pow (x e : R) : res R :=
  if Rlt_dec 0 x then Ok (Rpower x e)
  else if Rlt_dec e 0 then Raise ZeroDivisionError
  else if Req_dec_T e 0 then Ok 1
  else Ok 0.

(** [h_dist(module, init_module, p, q)]: [n_hidden] is called with the one
    argument [module]. *)
Definition h_dist (module init_module : nn_module) (p q : order) : res R :=
  n ← n_hidden [module];
  i ← inv_order q;
  hidden ← py_pow (INR n) (1 - i);
  dist ← distance module init_module p q;
  Ok (hidden * dist).

(** [h_dist_op_norm(module, init_module, p, q, p_op)]: the call
    [op_norm(module, init_module, p=p_op)] gives [p] twice, a
    [TypeError]. *)
Definition h_dist_op_norm (module init_module : nn_module) (p q p_op : order)
  : res R :=
  h ← h_dist module init_module p q;
  o ← (Raise TypeError : res R);
  truediv h o.

End Measures.

(** ** Tensor operations of [validate] *)

Module Torch.
Local Open Scope R_scope.

#[global] Instance Rle_rel_dec : RelDecision Rle := Rle_dec.

(** [row.min()]; torch refuses an empty row. *)
Definition row_min (r : list R) : res R :=
  match r with
  | [] => Raise RuntimeError
  | x :: r' => Ok (foldr Rmin x r')
  end.

(** The index of the largest entry, the first one among equals. *)
Fixpoint argmax_from (r : list R) (best : R) (besti i : nat) : nat :=
  match r with
  | [] => besti
  | x :: r' =>
      if Rlt_dec best x then argmax_from r' x i (S i)
      else argmax_from r' best besti (S i)
  end.

(** [row.max(0)[1]] *)
Definition row_argmax (r : list R) : res nat :=
  match r with
  | [] => Raise RuntimeError
  | x :: r' => Ok (argmax_from r' x 0%nat 1%nat)
  end.

(** [m[:, cols].diag()] for as many columns as rows: entry [i] is
    [m[i, cols[i]]]. *)
Fixpoint diag_at (m : list (list R)) (cols : list nat) : res (list R) :=
  match m, cols with
  | row :: m', c :: cols' =>
      match row !! c with
      | Some v => vs ← diag_at m' cols'; Ok (v :: vs)
      | None => Raise IndexError
      end
  | _, _ => Ok []
  end.

(** The argument of a torch function: a Python number or a tensor. *)
Inductive number_or_tensor : Type :=
| Number (x : R)
| TensorOf (entries : list R).

(** [torch.max(input)]: the largest entry of a tensor; a Python number is
    not accepted, a [TypeError]. *)
Definition torch_max (input : number_or_tensor) : res R :=
  match input with
  | Number _ => Raise TypeError
  | TensorOf [] => Raise RuntimeError
  | TensorOf (x :: t) => Ok (foldr Rmax x t)
  end.

(** [np.percentile(a, q)] with numpy's default linear interpolation
    between the two closest ranks; of an empty array it is a nan, here
    [None]. *)
Definition percentile (a : list R) (q : nat) : option R :=
  let s := merge_sort Rle a in
  match length s with
  | O => None
  | S n1 =>
      let lo := ((q * n1) / 100)%nat in
      let hi := Nat.min (lo + 1) n1 in
      let frac := INR ((q * n1) mod 100) / 100 in
      Some (nth lo s 0 + frac * (nth hi s 0 - nth lo s 0))
  end.

End Torch.

(** ** The evaluation loop shared by both [validate] functions

    The body of the loop over the batches is the same text in [train.py]
    and in [main.py]. *)

Module Loop.
Import Torch.
Local Open Scope R_scope.

Section Loop.
(** One input example. *)
Variable input : Type.
(** The network in evaluation mode, which scores each example of a
    batch on its own: one row of class scores per example. *)
Variable model : input -> list R.
(** The criterion: the mean loss of a batch of outputs and targets. *)
Variable criterion : list (list R) -> list nat -> R.

(** A batch pairs every example with its label, so [data] and [target]
    have the same length. *)
Definition batch : Type := list (input * nat).

Definition data (b : batch) : list input := b.*1.
Definition target (b : batch) : list nat := b.*2.

(** [output_m[i, t] = output_m[i, :].min()] *)
Definition mask_row (output_m : list (list R)) (i t : nat)
  : res (list (list R)) :=
  match output_m !! i with
  | None => Raise IndexError
  | Some row =>
      mn ← row_min row;
      if decide (t < length row)%nat
      then Ok (<[i := <[t := mn]> row]> output_m)
      else Raise IndexError
  end.

(** [for i in range(target.size(0))], from row [i] on. *)
Fixpoint mask_targets (output_m : list (list R)) (i : nat)
  (target : list nat) : res (list (list R)) :=
  match target with
  | [] => Ok output_m
  | t :: rest =>
      output_m' ← mask_row output_m i t;
      mask_targets output_m' (S i) rest
  end.

(** The margins of one batch:
    [output[:, target].diag() - output_m[:, output_m.max(1)[1]].diag()]. *)
Definition batch_margin (output : list (list R)) (target : list nat)
  : res (list R) :=
  let output_m := output in
  output_m ← mask_targets output_m 0 target;
  true_score ← diag_at output target;
  best ← mapM row_argmax output_m;
  best_score ← diag_at output_m best;
  Ok (zip_with Rminus true_score best_score).

(** [pred.eq(target).sum().item()] *)
Definition count_eq (pred target : list nat) : nat :=
  length (filter (fun '(a, b) => a = b) (zip pred target)).

(** The accumulators [sum_loss], [sum_correct] and [margin]. *)
Record acc : Type :=
  Acc { sum_loss : R; sum_correct : nat; margin : list R }.

Definition step (a : acc) (b : batch) : res acc :=
  let output := map model (data b) in
  pred ← mapM row_argmax output;
  let sum_correct' := (sum_correct a + count_eq pred (target b))%nat in
  let sum_loss' :=
    sum_loss a + INR (length (data b)) * criterion output (target b) in
  ms ← batch_margin output (target b);
  Ok (Acc sum_loss' sum_correct' (margin a ++ ms)).

Fixpoint run (a : acc) (bs : list batch) : res acc :=
  match bs with
  | [] => Ok a
  | b :: rest => a' ← step a b; run a' rest
  end.

(** A [DataLoader]: the batches it yields, [len(loader.sampler)] and
    [len(loader.dataset)]. *)
Record loader : Type := Loader {
  batches : list batch;
  sampler_len : nat;
  dataset_len : nat
}.
End Loop.

Arguments Loader {_} _ _ _.
Arguments batches {_} _.
Arguments sampler_len {_} _.
Arguments dataset_len {_} _.
Arguments data {_} _.
Arguments target {_} _.
Arguments step {_} _ _ _ _.
Arguments run {_} _ _ _ _.
End Loop.

(** ** What a run of an entry point comes to *)

Module Entry.

(** The two network classes, [vgg.Network] and [fc.Network], with their
    constructor arguments. *)
Inductive net : Type :=
| VGG (nchannels nclasses : nat)
| FC (nchannels nclasses : nat).

(** A run reaches the training loop with a model and a sampler of so
    many examples, returns after a message, or stops on an exception.
    Loading the data and the training itself are outside of the model. *)
Inductive outcome : Type :=
| Training (model : net) (num_samples : nat)
| Returned (printed : string)
| Raised (e : exn).

End Entry.

(** ** train.py *)

Module Train.
Import Measures Torch Loop.
Local Open Scope R_scope.

(** A Python number given for [sigma]. *)
Inductive pynum : Type :=
| PyInt (z : Z)
| PyFloat (x : R).

(** [a ^ b] with an integer [b] is the bitwise exclusive or, which a
    float does not support. *)
Definition xor (a : pynum) (b : Z) : res Z :=
  match a with
  | PyInt z => Ok (Z.lxor z b)
  | PyFloat _ => Raise TypeError
  end.

Definition PAC_KL (tr_loss exp_sharpness l2_reg setsize : R)
  (sigma : pynum) (delta : R) : res R :=
  a ← truediv 1 setsize;
  x ← xor sigma 2;
  b ← truediv l2_reg (2 * IZR x);
  c ← truediv (2 * setsize) delta;
  l ← math_log c;
  s ← math_sqrt (a * b + l);
  Ok (tr_loss + exp_sharpness + 4 * s).

Section Validate.
Variable input : Type.

Definition validate (model : input -> list R) (data_loader : loader input)
  (criterion : list (list R) -> list nat -> R)
  : res (R * R * option R) :=
  a ← run model criterion (Acc 0 0%nat []) (batches data_loader);
  let margin := percentile (margin a) 5 in
  (* a sampler is true when its length is not zero *)
  let len_dataset :=
    if decide (sampler_len data_loader = 0%nat)
    then dataset_len data_loader
    else sampler_len data_loader in
  err ← truediv (INR (sum_correct a)) (INR len_dataset);
  loss ← truediv (sum_loss a) (INR len_dataset);
  Ok (1 - err, loss, margin).

(** The forward pass that the weights of a module tree give. *)
Variable forward : nn_module -> input -> list R.

(** The model is perturbed in place: the result pairs the returned
    number with the model as it is after the call. The two losses are
    Python numbers, and so is their difference, which is given to
    [torch.max]. *)
Definition calc_sharpness (model : nn_module) (train_loader : loader input)
  (criterion : list (list R) -> list nat -> R) : res (R * nn_module) :=
  let clean_model := model in
  '(clean_error, clean_loss, clean_margin) ←
    validate (forward clean_model) train_loader criterion;
  model' ← add_perturbation model default_alpha;
  '(pert_error, pert_loss, pert_margin) ←
    validate (forward model') train_loader criterion;
  sharpness ← torch_max (Number (pert_loss - clean_loss));
  Ok (sharpness, model').
End Validate.

Arguments validate {_} _ _ _.
Arguments calc_sharpness {_} _ _ _ _.

Import Entry.

(** The command line arguments that decide the outcome. *)
Record args : Type := Args {
  network : string;
  trainingsetsize : Z
}.

(** A local variable is [None] until it is assigned. The sampler is
    [SubsetRandomSampler(list(range(args.trainingsetsize)))]. *)
Definition main (args : args) : outcome :=
  let nchannels := 3%nat in
  let nclasses := 10%nat in
  let model : option net :=
    if String.eqb (network args) "vgg" then Some (VGG nchannels nclasses)
    else if String.eqb (network args) "fc" then Some (FC nchannels nclasses)
    else None in
  match model with
  | None => Raised (UnboundLocalError "model")
  | Some model => Training model (Z.to_nat (trainingsetsize args))
  end.

End Train.

(** ** main.py *)

Module Main.
Import Torch Loop Entry.
Local Open Scope R_scope.

Definition validate {input : Type} (model : input -> list R)
  (val_loader : loader input)
  (criterion : list (list R) -> list nat -> R) : res (R * R * option R) :=
  a ← run model criterion (Acc 0 0%nat []) (batches val_loader);
  let val_margin := percentile (margin a) 5 in
  err ← truediv (INR (sum_correct a)) (INR (dataset_len val_loader));
  loss ← truediv (sum_loss a) (INR (dataset_len val_loader));
  Ok (1 - err, loss, val_margin).

Record args : Type := Args {
  model : string;
  dataset : string;
  trainingsetsize : Z
}.

(** [len_train_dataset] is [len(train_dataset)] of the loaded data. *)
Definition main (args : args) (len_train_dataset : nat) : outcome :=
  let nchannels := 3%nat in
  let nclasses := 10%nat in
  let nchannels :=
    if String.eqb (dataset args) "MNIST" then 1%nat else nchannels in
  if String.eqb (model args) "vgg" then
    let model := VGG nchannels nclasses in
    let num_samples : option nat :=
      if (trainingsetsize args =? -1)%Z then Some len_train_dataset
      else None in
    match num_samples with
    | None => Raised (UnboundLocalError "num_samples")
    | Some num_samples =>
        (* RandomSampler refuses a number of samples that is not positive *)
        if decide (num_samples = 0%nat) then Raised ValueError
        else Training model num_samples
    end
  else Returned "no valid model input.".

End Main.

(** ** The properties the measures are meant to have *)

Module Spec.
Import Measures Torch Loop.
Local Open Scope R_scope.

(** The layers of a model at any nesting depth. *)
Fixpoint layers (m : nn_module) : list nn_module :=
  match m with
  | NNModule _ _ ch =>
      flat_map (fun c => if is_layer (get_name c) then [c] else layers c) ch
  end.

(** The layers among the direct children. *)
Definition direct_layers (m : nn_module) : list nn_module :=
  filter (fun c => is_layer (get_name c) = true) (children m).

(** The product of the l_pq norms of all the layers. *)
Definition norm_product (m : nn_module) (p q : order) : R :=
  prod_R (map (fun l => norm l p q) (layers m)).

(** The product of the operator norms of all the layers. *)
Definition op_norm_product (svd_S : matrix -> list R) (m : nn_module)
  (p : order) : R :=
  prod_R (map (fun l => op_norm svd_S l p) (layers m)).

(** The PAC-Bayes bound with the square of sigma. *)
Definition PAC_KL_bound (tr_loss exp_sharpness l2_reg setsize sigma delta : R)
  : R :=
  tr_loss + exp_sharpness
  + 4 * sqrt ((1 / setsize) * (l2_reg / (2 * sigma ^ 2))
              + ln ((2 * setsize) / delta)).

(** A parameter with [|w|^p] in the place of every entry [w] when it is
    trainable. *)
Definition powered (p : nat) (prm : parameter) : list R :=
  if requires_grad prm then map (fun w => Rabs w ^ p) (Measures.data prm)
  else Measures.data prm.

(** The path norm: the p-th root of the summed output, on an all-ones
    input, of the network with the powered parameters. *)
Definition path_norm (model : torch_model) (prms : list parameter) (p : nat)
  (input_size : list nat) : R :=
  nth_root p
    (sum_R (forward model false (map (powered p) prms) (ones input_size))).

(** The weight with the perturbation [alpha * (|w| + 1)] added to it. *)
Definition perturbed (alpha w : R) : R := w + alpha * (Rabs w + 1).

Definition add_to_weight (alpha : R) (module : nn_module) : nn_module :=
  match module with
  | NNModule n w c => NNModule n (map (map (perturbed alpha)) w) c
  end.

(** The model with the perturbation added to the weight of every
    layer. *)
Fixpoint add_to_weights (alpha : R) (m : nn_module) : nn_module :=
  match m with
  | NNModule n w ch =>
      NNModule n w
        (map (fun c => if is_layer (get_name c)
                       then add_to_weight alpha c
                       else add_to_weights alpha c) ch)
  end.

(** The loss that [validate] reports, 0 if it raises. *)
Definition loss_of {input : Type} (model : input -> list R)
  (data_loader : loader input)
  (criterion : list (list R) -> list nat -> R) : R :=
  match Train.validate model data_loader criterion with
  | Ok (_, loss, _) => loss
  | Raise _ => 0
  end.

(** The sharpness: the increase of the training loss when the
    perturbation is added to the weights. *)
Definition sharpness {input : Type} (forward : nn_module -> input -> list R)
  (model : nn_module) (train_loader : loader input)
  (criterion : list (list R) -> list nat -> R) : R :=
  loss_of (forward (add_to_weights default_alpha model)) train_loader
    criterion
  - loss_of (forward model) train_loader criterion.

(** The largest entry of a row outside of column [t], if there is one. *)
Definition max_other (row : list R) (t : nat) : option R :=
  match delete t row with
  | [] => None
  | x :: r => Some (foldr Rmax x r)
  end.

(** The margin of one example: the score of the true class minus the best
    score of another class. *)
Definition example_margin (row : list R) (t : nat) : option R :=
  s ← row !! t;
  m ← max_other row t;
  Some (s - m).

(** All the examples that a loader yields. *)
Definition examples {input : Type} (ld : loader input)
  : list (input * nat) :=
  concat (batches ld).

(** An example is classified correctly when the class of the largest
    score is its label. *)
Definition correct {input : Type} (model : input -> list R)
  (e : input * nat) : Prop :=
  row_argmax (model e.1) = Ok e.2.

#[global] Instance correct_dec {input : Type} (model : input -> list R)
  (e : input * nat) : Decision (correct model e).
Proof.
  unfold correct. destruct (row_argmax (model e.1)) as [k | err].
  - destruct (decide (k = e.2)) as [-> | Hne]; [by left |].
    right. congruence.
  - by right.
Defined.

(** The fraction of the examples that are classified correctly. *)
Definition accuracy {input : Type} (model : input -> list R)
  (ld : loader input) : R :=
  INR (length (filter (correct model) (examples ld)))
  / INR (length (examples ld)).

(** The average of the batch losses, each weighted by the length of its
    batch. *)
Definition average_loss {input : Type} (model : input -> list R)
  (criterion : list (list R) -> list nat -> R) (ld : loader input) : R :=
  sum_R (map (fun b : batch input =>
                INR (length b) * criterion (map model (data b)) (target b))
           (batches ld))
  / INR (length (examples ld)).

End Spec.

(** ** Runs without exception *)

Module Runs.
Import Measures.
Local Open Scope R_scope.

(** [calc_norm] walks a module without exception: the module and the
    containers below it are iterable, and the layers it takes the
    logarithm of have a positive norm. *)
Inductive walks (p q : order) : nn_module -> Prop :=
| walks_node name w ch :
    iterable name = true ->
    Forall (fun c => is_layer (get_name c) = true -> 0 < norm c p q) ch ->
    Forall (fun c => is_layer (get_name c) = false -> walks p q c) ch ->
    walks p q (NNModule name w ch).

(** The same for [calc_spectral_norm], which never iterates a module
    itself. *)
Inductive walks_spectral (svd_S : matrix -> list R) (p : order)
  : nn_module -> Prop :=
| walks_spectral_node name w ch :
    Forall (fun c => is_layer (get_name c) = true ->
                     0 < op_norm svd_S c p) ch ->
    Forall (fun c => is_layer (get_name c) = false ->
                     walks_spectral svd_S p c) ch ->
    walks_spectral svd_S p (NNModule name w ch).

(** The row norms of a weight are defined: the rows of the weight have
    entries when the order is the infinite one, the only order at which
    torch's norm over an empty dimension is refused. *)
Definition row_norms_defined (p : order) (w : matrix) : Prop :=
  p = OrdInf -> Forall (fun row => row <> []) w.

(** The values behind [row_min] and [row_argmax], and the largest entry, on a row
    that is not empty. *)
Definition min_of (r : list R) : R :=
  match r with [] => 0 | x :: r' => foldr Rmin x r' end.
Definition max_of (r : list R) : R :=
  match r with [] => 0 | x :: r' => foldr Rmax x r' end.
Definition argmax_of (r : list R) : nat :=
  match r with [] => 0%nat | x :: r' => Torch.argmax_from r' x 0 1 end.

(** A row with the entry of the true class lowered to the minimum. *)
Definition masked (row : list R) (t : nat) : list R :=
  <[t := min_of row]> row.

(** The margin that the loop computes for a row and its label. *)
Definition margin_of (row : list R) (t : nat) : R :=
  nth t row 0 - max_of (masked row t).

(** [m] is a largest element of [l]. *)
Definition is_max (l : list R) (m : R) : Prop :=
  m ∈ l /\ forall y, y ∈ l -> y <= m.

(** Every label of a batch is a class of the scores of its example. *)
Definition labelled {input : Type} (model : input -> list R)
  (b : list (input * nat)) : Prop :=
  Forall (fun e => (e.2 < length (model e.1))%nat) b.

(** The in-place operations of [lp_path_norm] are allowed: the call is
    inside [torch.no_grad()], or no parameter requires grad. *)
Definition in_place_allowed (grad_enabled : bool) (prms : list parameter)
  : Prop :=
  Forall (fun prm => grad_enabled && requires_grad prm = false) prms.

End Runs.

(** ** Models used as examples *)

Module Examples.
Import Measures.
Local Open Scope R_scope.

Definition linear2 : nn_module := NNModule "Linear" [[2]] [].

(** A layer inside of a container inside of the model. *)
Definition nested_model : nn_module :=
  NNModule "Sequential" [] [NNModule "Sequential" [] [linear2]].

(** The singular values of a matrix of one row: the Euclidean norm of
    the row; other matrices are not needed. *)
Definition svd_S_row (w : matrix) : list R :=
  match w with
  | [row] => [vec_norm (Ord 2) row]
  | _ => []
  end.

(** A model of one layer with the 1x1 weight 1. *)
Definition one_layer : nn_module :=
  NNModule "Sequential" [] [NNModule "Linear" [[1]] []].

(** Entry (0, 0) of the weight of the first layer. *)
Definition first_weight (m : nn_module) : R :=
  match Spec.layers m with
  | NNModule _ ((w :: _) :: _) _ :: _ => w
  | _ => 0
  end.

(** A forward pass with one class: the input scaled by that weight. *)
Definition scale_forward (m : nn_module) (x : R) : list R :=
  [first_weight m * x].

(** A criterion: the first score of the batch. *)
Definition first_score (output : list (list R)) (target : list nat) : R :=
  match output with
  | (s :: _) :: _ => s
  | _ => 0
  end.

(** A loader of one batch with the one example 1 of class 0. *)
Definition one_example : Loop.loader R := Loop.Loader [[(1, 0%nat)]] 1 1.

(** A model that scores every input with 3, 1 and 2 for three classes. *)
Definition three_scores (x : nat) : list R := [3; 1; 2].

(** A batch of two examples, of the classes 0 and 2. *)
Definition two_examples : Loop.batch nat := [(0%nat, 0%nat); (1%nat, 2%nat)].

Definition two_loader : Loop.loader nat := Loop.Loader [two_examples] 2 2.

Definition dot (w x : list R) : R := sum_R (zip_with Rmult w x).

(** A model of one linear unit without bias, its weight at location 1. *)
Definition linear_unit : torch_model :=
  TorchModel [1%positive] true
    (fun _ vals x =>
       match vals with
       | w :: _ => [dot w (entries x)]
       | [] => []
       end).

Definition linear_unit_weight : parameter := Param true [-2; 1].

Definition linear_store : gmap loc parameter :=
  {[ 1%positive := linear_unit_weight ]}.

(** A layer as a direct child next to a container that holds a layer. *)
Definition mixed_model : nn_module :=
  NNModule "Sequential" [] [linear2; NNModule "Sequential" [] [linear2]].

(** A model whose second layer has a weight of zeros. *)
Definition zero_layer_model : nn_module :=
  NNModule "Sequential" [] [linear2; NNModule "Linear" [[0; 0]] []].

End Examples.

(** * Properties *)

Import Measures Torch Loop Entry Spec Runs Examples.
Local Open Scope R_scope.

(** ** Python arithmetic *)

Lemma math_log_pos (x : R) : 0 < x -> math_log x = Ok (ln x).
Proof. intros Hx. unfold math_log. destruct (Rlt_dec 0 x); [done | lra]. Qed.

Lemma math_log_nonpos (x : R) : x <= 0 -> math_log x = Raise ValueError.
Proof. intros Hx. unfold math_log. destruct (Rlt_dec 0 x); [lra | done]. Qed.

Lemma math_sqrt_nonneg (x : R) : 0 <= x -> math_sqrt x = Ok (sqrt x).
Proof. intros Hx. unfold math_sqrt. destruct (Rle_dec 0 x); [done | lra]. Qed.

Lemma truediv_nonzero (x y : R) : y <> 0 -> truediv x y = Ok (x / y).
Proof. intros Hy. unfold truediv. destruct (Req_dec_T y 0); [lra | done]. Qed.

Lemma truediv_zero (x : R) : truediv x 0 = Raise ZeroDivisionError.
Proof. unfold truediv. destruct (Req_dec_T 0 0); [done | lra]. Qed.

Lemma bind_Ok {A B : Type} (a : A) (k : A -> res B) : (Ok a ≫= k) = k a.
Proof. reflexivity. Qed.

Lemma bind_Raise {A B : Type} (e : exn) (k : A -> res B) :
  (Raise e ≫= k) = Raise e.
Proof. reflexivity. Qed.

(** ** Roots and vector norms *)

Lemma nth_root_pos (n : nat) (x : R) : 0 < x -> 0 < nth_root n x.
Proof.
  intros Hx. unfold nth_root. destruct (Rlt_dec 0 x); [| lra].
  unfold Rpower. apply exp_pos.
Qed.

Lemma nth_root_nonneg (n : nat) (x : R) : 0 <= nth_root n x.
Proof.
  unfold nth_root. destruct (Rlt_dec 0 x); [| lra].
  unfold Rpower. left. apply exp_pos.
Qed.

Lemma nth_root_1 (x : R) : 0 <= x -> nth_root 1 x = x.
Proof.
  intros Hx. unfold nth_root. destruct (Rlt_dec 0 x) as [Hp | Hn].
  - simpl. rewrite Rinv_1. by apply Rpower_1.
  - lra.
Qed.

(** The root undoes the power on the non-negative numbers. *)
Lemma nth_root_pow (n : nat) (x : R) :
  (1 <= n)%nat -> 0 <= x -> nth_root n (x ^ n) = x.
Proof.
  intros Hn Hx. unfold nth_root.
  destruct (Rlt_dec 0 (x ^ n)) as [Hp | Hnp].
  - assert (0 < x) as Hx'.
    { destruct Hx as [Hx | <-]; [done |].
      rewrite pow_i in Hp by lia. lra. }
    unfold Rpower. rewrite ln_pow by done.
    replace (/ INR n * (INR n * ln x)) with (ln x).
    + by apply exp_ln.
    + field. apply not_0_INR. lia.
  - destruct Hx as [Hx | <-]; [| done].
    exfalso. apply Hnp. by apply pow_lt.
Qed.

Lemma sum_R_nonneg (v : list R) : Forall (fun x => 0 <= x) v -> 0 <= sum_R v.
Proof.
  induction 1 as [| x v Hx _ IH]; simpl; [lra |].
  unfold sum_R in *. simpl. lra.
Qed.

Lemma vec_norm_nonneg (p : order) (v : list R) : 0 <= vec_norm p v.
Proof.
  destruct p as [[| n] |]; simpl.
  - apply pos_INR.
  - apply nth_root_nonneg.
  - induction v as [| x v IH]; simpl; [lra |].
    eapply Rle_trans; [apply IH | apply Rmax_r].
Qed.

Lemma vec_norm_1_singleton (x : R) : vec_norm (Ord 1) [x] = Rabs x.
Proof.
  unfold vec_norm, sum_R. simpl. rewrite Rmult_1_r, Rplus_0_r.
  apply nth_root_1, Rabs_pos.
Qed.

Lemma vec_norm_inf_singleton (x : R) : vec_norm OrdInf [x] = Rabs x.
Proof. simpl. apply Rmax_left, Rabs_pos. Qed.

(** ** Aggregation over the module tree *)

Lemma calc_norm_unfold (name : string) (w : matrix) (ch : list nn_module)
  (p q : order) (result : R) :
  calc_norm (NNModule name w ch) p q result =
    if iterable name
    then calc_norm_loop (fun c r => calc_norm c p q r) p q ch result
    else Raise TypeError.
Proof. reflexivity. Qed.

Lemma calc_norm_loop_nil self p q result :
  calc_norm_loop self p q [] result = Ok (exp result).
Proof. reflexivity. Qed.

(** A positive norm is the norm of a weight that has rows. *)
Lemma norm_pos_rows (module : nn_module) (p q : order) :
  0 < norm module p q -> length (weight module) <> 0%nat.
Proof.
  unfold norm. destruct (weight module) as [| row w]; [| done].
  intros Hn. exfalso. destruct q as [[| n] |]; cbn [map vec_norm] in Hn.
  - cbn in Hn. lra.
  - unfold nth_root, sum_R in Hn. cbn [map foldr] in Hn.
    destruct (Rlt_dec 0 0); lra.
  - cbn in Hn. lra.
Qed.

Lemma calc_norm_loop_layer self p q child rest result :
  is_layer (get_name child) = true ->
  0 < norm child p q ->
  calc_norm_loop self p q (child :: rest) result =
    calc_norm_loop self p q rest (result + ln (norm child p q)).
Proof.
  intros Hl Hn. cbn [calc_norm_loop]. rewrite Hl. unfold view_rows.
  rewrite decide_False by by eapply norm_pos_rows.
  rewrite bind_Ok, (math_log_pos _ Hn). reflexivity.
Qed.

Lemma calc_norm_loop_other self p q child rest result v :
  is_layer (get_name child) = false ->
  self child result = Ok v ->
  calc_norm_loop self p q (child :: rest) result =
    calc_norm_loop self p q rest result.
Proof. intros Hl Hs. simpl. rewrite Hl, Hs. reflexivity. Qed.

(** Induction on a module with the property known of all its children. *)
Lemma nn_module_children_ind (P : nn_module -> Prop) :
  (forall name w ch, Forall P ch -> P (NNModule name w ch)) ->
  forall m, P m.
Proof.
  intros Hnode. fix IH 1. intros [name w ch]. apply Hnode.
  induction ch as [| c ch IHch]; constructor; [apply IH | apply IHch].
Qed.

(** What the loop returns when nothing raises: the layers among the
    modules it runs over contribute, whatever the recursive calls
    return. *)
Lemma calc_norm_loop_direct self p q cs :
  Forall (fun c => is_layer (get_name c) = true -> 0 < norm c p q) cs ->
  Forall (fun c => is_layer (get_name c) = false ->
                   forall r, exists v, self c r = Ok v) cs ->
  forall result,
    calc_norm_loop self p q cs result =
      Ok (exp result
          * prod_R (map (fun l => norm l p q)
                      (filter (fun c => is_layer (get_name c) = true) cs))).
Proof.
  induction cs as [| c cs IH]; intros Hl Ho result.
  - rewrite calc_norm_loop_nil. unfold prod_R. simpl. f_equal. lra.
  - apply Forall_cons in Hl as [Hc Hl]. apply Forall_cons in Ho as [Hc' Ho].
    rewrite filter_cons.
    destruct (is_layer (get_name c)) eqn:Hlayer.
    + rewrite calc_norm_loop_layer by auto.
      rewrite (IH Hl Ho). rewrite decide_True by done.
      f_equal. unfold prod_R. cbn [map foldr].
      rewrite exp_plus, exp_ln by auto. lra.
    + destruct (Hc' eq_refl result) as [v Hv].
      erewrite calc_norm_loop_other by eauto.
      rewrite (IH Hl Ho). by rewrite decide_False by done.
Qed.

(** On a module it walks, [calc_norm] returns the product of the norms of
    the layers among the direct children only. *)
Lemma calc_norm_direct p q m :
  walks p q m ->
  forall result,
    calc_norm m p q result =
      Ok (exp result * prod_R (map (fun l => norm l p q) (direct_layers m))).
Proof.
  induction m as [name w ch IH] using nn_module_children_ind.
  intros Hw result. inversion Hw as [? ? ? Hit Hl Ho]; subst.
  rewrite calc_norm_unfold, Hit. unfold direct_layers, children.
  apply calc_norm_loop_direct; [done |].
  clear Hw Hl Hit result.
  induction ch as [| c ch IHch]; [constructor |].
  apply Forall_cons in IH as [IHc IH]. apply Forall_cons in Ho as [Hc Ho].
  constructor; [| by apply IHch].
  intros Hlayer r. eexists. by apply IHc, Hc.
Qed.

(** When all the layers are direct children the product is complete. *)
Lemma calc_norm_flat p q name w ch :
  iterable name = true ->
  Forall (fun c => is_layer (get_name c) = true /\ 0 < norm c p q) ch ->
  calc_norm (NNModule name w ch) p q 0 =
    Ok (norm_product (NNModule name w ch) p q).
Proof.
  intros Hit Hch.
  rewrite calc_norm_direct.
  - rewrite exp_0, Rmult_1_l. unfold norm_product, direct_layers, children.
    do 3 f_equal. cbn [layers].
    induction Hch as [| c ch [Hc _] _ IH]; [done |].
    rewrite filter_cons, decide_True by done. cbn [flat_map].
    rewrite Hc. cbn [app]. by f_equal.
  - constructor; [done | |].
    + eapply Forall_impl; [exact Hch |]. by intros c [_ ?] _.
    + eapply Forall_impl; [exact Hch |]. intros c [Hc _] Hc'. congruence.
Qed.

Lemma norm_linear2 : norm linear2 (Ord 1) (Ord 1) = 2.
Proof.
  change (norm linear2 (Ord 1) (Ord 1))
    with (vec_norm (Ord 1) [vec_norm (Ord 1) [2]]).
  rewrite !vec_norm_1_singleton, Rabs_Rabsolu. apply Rabs_pos_eq. lra.
Qed.

(** C1 (fails on the code): for the model [Sequential(Sequential(Linear))]
    whose only layer has the l_11 norm 2, [calc_norm(model, 1, 1, 0)]
    returns 1, while the product of the norms of the layers at any nesting
    depth is 2: the value of the recursive call on the inner container is
    dropped. *)
Theorem calc_norm_drops_nested_layers :
  calc_norm nested_model (Ord 1) (Ord 1) 0 = Ok 1
  /\ norm_product nested_model (Ord 1) (Ord 1) = 2.
Proof.
  split.
  - unfold nested_model. rewrite calc_norm_unfold.
    change (iterable "Sequential") with true. cbv iota.
    erewrite calc_norm_loop_other; [by rewrite calc_norm_loop_nil, exp_0 | done |].
    rewrite calc_norm_unfold. change (iterable "Sequential") with true. cbv iota.
    rewrite calc_norm_loop_layer, calc_norm_loop_nil; [done | done |].
    rewrite norm_linear2. lra.
  - unfold norm_product.
    change (layers nested_model) with [linear2].
    unfold prod_R. cbn [map foldr]. rewrite norm_linear2. lra.
Qed.

(** ** The spectral norm over the module tree *)

Lemma calc_spectral_norm_unfold svd_S name w ch p result :
  calc_spectral_norm svd_S (NNModule name w ch) p result =
    calc_spectral_norm_loop svd_S
      (fun c r => calc_spectral_norm svd_S c p r) p ch result.
Proof. reflexivity. Qed.

Lemma calc_spectral_norm_loop_direct svd_S self p cs :
  Forall (fun c => is_layer (get_name c) = true -> 0 < op_norm svd_S c p) cs ->
  Forall (fun c => is_layer (get_name c) = false ->
                   forall r, exists v, self c r = Ok v) cs ->
  forall result,
    calc_spectral_norm_loop svd_S self p cs result =
      Ok (exp result
          * prod_R (map (fun l => op_norm svd_S l p)
                      (filter (fun c => is_layer (get_name c) = true) cs))).
Proof.
  induction cs as [| c cs IH]; intros Hl Ho result.
  - unfold prod_R. simpl. f_equal. lra.
  - apply Forall_cons in Hl as [Hc Hl]. apply Forall_cons in Ho as [Hc' Ho].
    rewrite filter_cons. cbn [calc_spectral_norm_loop].
    destruct (is_layer (get_name c)) eqn:Hlayer.
    + rewrite math_log_pos by auto. rewrite bind_Ok.
      rewrite (IH Hl Ho), decide_True by done.
      f_equal. unfold prod_R. cbn [map foldr].
      rewrite exp_plus, exp_ln by auto. lra.
    + destruct (Hc' eq_refl result) as [v ->]. rewrite bind_Ok.
      by rewrite (IH Hl Ho), decide_False by done.
Qed.

(** [calc_spectral_norm] too returns the product over the layers among
    the direct children only. *)
Lemma calc_spectral_norm_direct svd_S p m :
  walks_spectral svd_S p m ->
  forall result,
    calc_spectral_norm svd_S m p result =
      Ok (exp result
          * prod_R (map (fun l => op_norm svd_S l p) (direct_layers m))).
Proof.
  induction m as [name w ch IH] using nn_module_children_ind.
  intros Hw result. inversion Hw as [? ? ? Hl Ho]; subst.
  rewrite calc_spectral_norm_unfold. unfold direct_layers, children.
  apply calc_spectral_norm_loop_direct; [done |].
  clear Hw Hl result.
  induction ch as [| c ch IHch]; [constructor |].
  apply Forall_cons in IH as [IHc IH]. apply Forall_cons in Ho as [Hc Ho].
  constructor; [| by apply IHch].
  intros Hlayer r. eexists. by apply IHc, Hc.
Qed.

Lemma svd_S_row_linear2 : svd_S_row [[2]] = [2].
Proof.
  unfold svd_S_row, vec_norm, sum_R. cbn [map foldr]. f_equal.
  rewrite Rplus_0_r, Rabs_pos_eq by lra. apply nth_root_pow; [lia | lra].
Qed.

(** C5 (fails on the code): whatever singular values the decomposition
    gives, as long as the 1x1 weight [[2]] has the singular value 2, on the
    model [Sequential(Sequential(Linear))] with that weight
    [calc_spectral_norm(model, inf, 0)] returns 1, while the product of
    [op_norm] over the layers at any nesting depth is 2. *)
Theorem calc_spectral_norm_drops_nested_layers (svd_S : matrix -> list R) :
  svd_S [[2]] = [2] ->
  calc_spectral_norm svd_S nested_model OrdInf 0 = Ok 1
  /\ op_norm_product svd_S nested_model OrdInf = 2.
Proof.
  intros Hsvd.
  assert (op_norm svd_S linear2 OrdInf = 2) as Hop.
  { unfold op_norm. change (weight linear2) with [[2]]. rewrite Hsvd.
    rewrite vec_norm_inf_singleton. apply Rabs_pos_eq. lra. }
  split.
  - rewrite calc_spectral_norm_direct.
    + change (direct_layers nested_model) with (@nil nn_module).
      unfold prod_R. cbn [map foldr]. rewrite exp_0. f_equal. lra.
    + constructor; (constructor; [| constructor]); [done |].
      intros _. constructor; (constructor; [| constructor]); [| done].
      intros _. rewrite Hop. lra.
  - unfold op_norm_product. change (layers nested_model) with [linear2].
    unfold prod_R. cbn [map foldr]. rewrite Hop. lra.
Qed.

Lemma calc_spectral_norm_drops_nested_layers_witness :
  svd_S_row [[2]] = [2]
  /\ calc_spectral_norm svd_S_row nested_model OrdInf 0 = Ok 1
  /\ op_norm_product svd_S_row nested_model OrdInf = 2.
Proof.
  split; [apply svd_S_row_linear2 |].
  apply (calc_spectral_norm_drops_nested_layers svd_S_row), svd_S_row_linear2.
Defined.

(** ** The PAC-Bayes term *)

Import Train.

(** What [PAC_KL] computes for an integer sigma: the denominator is twice
    the exclusive or of sigma and 2. *)
Lemma PAC_KL_int (tr_loss exp_sharpness l2_reg setsize delta : R) (sigma : Z) :
  1 <= setsize -> 0 < delta < 1 -> 0 <= l2_reg -> (0 < Z.lxor sigma 2)%Z ->
  PAC_KL tr_loss exp_sharpness l2_reg setsize (PyInt sigma) delta =
    Ok (tr_loss + exp_sharpness
        + 4 * sqrt (1 / setsize * (l2_reg / (2 * IZR (Z.lxor sigma 2)))
                    + ln (2 * setsize / delta))).
Proof.
  intros Hn Hd Hl Hx. unfold PAC_KL.
  assert (0 < IZR (Z.lxor sigma 2)) as Hx' by by apply (IZR_lt 0).
  rewrite (truediv_nonzero 1 setsize), bind_Ok by lra.
  cbn [xor]. rewrite bind_Ok.
  rewrite (truediv_nonzero l2_reg), bind_Ok by lra.
  rewrite (truediv_nonzero (2 * setsize)), bind_Ok by lra.
  assert (1 < 2 * setsize / delta) as Hgt.
  { assert (1 < / delta) by (rewrite <- Rinv_1; apply Rinv_lt_contravar; lra).
    unfold Rdiv. nra. }
  assert (0 < ln (2 * setsize / delta)) as Hln.
  { rewrite <- ln_1. apply ln_increasing; lra. }
  rewrite math_log_pos, bind_Ok by lra.
  rewrite math_sqrt_nonneg, bind_Ok; [done |].
  assert (0 <= 1 / setsize * (l2_reg / (2 * IZR (Z.lxor sigma 2)))); [| lra].
  apply Rmult_le_pos.
  - apply Rlt_le, Rdiv_lt_0_compat; lra.
  - apply Rmult_le_pos; [done |]. apply Rlt_le, Rinv_0_lt_compat. lra.
Qed.

(** A float sigma has no exclusive or. *)
Lemma PAC_KL_float (tr_loss exp_sharpness l2_reg setsize delta sigma : R) :
  setsize <> 0 ->
  PAC_KL tr_loss exp_sharpness l2_reg setsize (PyFloat sigma) delta =
    Raise TypeError.
Proof.
  intros Hn. unfold PAC_KL. by rewrite (truediv_nonzero 1 setsize), bind_Ok.
Qed.

(** With sigma = 2 the exclusive or is zero. *)
Lemma PAC_KL_sigma_2 (tr_loss exp_sharpness l2_reg setsize delta : R) :
  setsize <> 0 ->
  PAC_KL tr_loss exp_sharpness l2_reg setsize (PyInt 2) delta =
    Raise ZeroDivisionError.
Proof.
  intros Hn. unfold PAC_KL. rewrite (truediv_nonzero 1 setsize), bind_Ok by done.
  cbn [xor]. rewrite bind_Ok. change (Z.lxor 2 2) with 0%Z.
  by rewrite Rmult_0_r, truediv_zero.
Qed.

(** C2 (fails on the code): with the default sigma = 1, a training set of
    one example, l2_reg = 6 and delta = 0.2, [PAC_KL] returns
    [4 * sqrt (6 / (2 * 3) + ln 10)], since [sigma ^ 2] is the exclusive
    or 3 and not the square 1; the stated bound is
    [4 * sqrt (6 / 2 + ln 10)], a different number. *)
Theorem PAC_KL_xor_instead_of_square :
  PAC_KL 0 0 6 1 (PyInt 1) (2 / 10) = Ok (4 * sqrt (1 + ln 10))
  /\ PAC_KL_bound 0 0 6 1 1 (2 / 10) = 4 * sqrt (3 + ln 10)
  /\ 4 * sqrt (1 + ln 10) <> 4 * sqrt (3 + ln 10).
Proof.
  assert (0 < ln 10) as Hln.
  { rewrite <- ln_1. apply ln_increasing; lra. }
  split; [| split].
  - rewrite PAC_KL_int; [| lra | lra | lra | done].
    change (Z.lxor 1 2) with 3%Z. do 2 f_equal.
    replace (2 * 1 / (2 / 10)) with 10 by lra.
    rewrite !Rplus_0_l. do 2 f_equal. lra.
  - unfold PAC_KL_bound. rewrite !Rplus_0_l. do 2 f_equal.
    replace (2 * 1 / (2 / 10)) with 10 by lra. f_equal. lra.
  - intros Heq. apply Rmult_eq_reg_l in Heq; [| lra].
    apply sqrt_inj in Heq; lra.
Qed.

(** ** The entry points *)

(** In [main.py] only the model ["vgg"] gets past the model selection. *)
Lemma main_py_other_model (a : Main.args) (len_train_dataset : nat) :
  Main.model a <> "vgg"%string ->
  Main.main a len_train_dataset = Returned "no valid model input.".
Proof.
  intros Hm. unfold Main.main.
  destruct (String.eqb_spec (Main.model a) "vgg"); [done | reflexivity].
Qed.

(** C7 (fails on the code of [main.py]): with the model argument ["fc"]
    the run of [main.py] prints "no valid model input." and returns
    before any training, while [train.py] with the network argument
    ["fc"] builds [fc.Network(3, 10)] and reaches the training loop. *)
Theorem main_py_fc_returns_untrained (a : Main.args) (b : Train.args)
  (len_train_dataset : nat) :
  Main.model a = "fc"%string ->
  Train.network b = "fc"%string ->
  Main.main a len_train_dataset = Returned "no valid model input."
  /\ Train.main b = Training (FC 3 10) (Z.to_nat (Train.trainingsetsize b)).
Proof.
  intros Ha Hb. split.
  - apply main_py_other_model. by rewrite Ha.
  - unfold Train.main. by rewrite Hb.
Qed.

Lemma main_py_fc_returns_untrained_witness :
  Main.main (Main.Args "fc" "CIFAR10" (-1)) 500
    = Returned "no valid model input."
  /\ Train.main (Train.Args "fc" 500) = Training (FC 3 10) 500.
Proof.
  destruct (main_py_fc_returns_untrained
              (Main.Args "fc" "CIFAR10" (-1)) (Train.Args "fc" 500) 500)
    as [Hmain Htrain]; [reflexivity | reflexivity |].
  split; [exact Hmain |].
  rewrite Htrain. f_equal.
Defined.

(** C8: in [main.py], whenever [--trainingsetsize] is not -1 the run never
    reaches the training loop, and with the one model that gets past the
    model selection, ["vgg"], it stops on the [UnboundLocalError] of
    [num_samples], which is a [NameError]. *)
Theorem main_py_restricted_size_raises (a : Main.args)
  (len_train_dataset : nat) :
  Main.trainingsetsize a <> (-1)%Z ->
  (forall model num_samples,
      Main.main a len_train_dataset <> Training model num_samples)
  /\ (Main.model a = "vgg"%string ->
      Main.main a len_train_dataset = Raised (UnboundLocalError "num_samples")
      /\ is_NameError (UnboundLocalError "num_samples") = true).
Proof.
  intros Hsize.
  assert ((Main.trainingsetsize a =? -1)%Z = false) as Hneq
    by by apply Z.eqb_neq.
  unfold Main.main. rewrite Hneq. split.
  - intros model num_samples. by destruct (String.eqb _ _).
  - intros ->. done.
Qed.

Lemma main_py_restricted_size_raises_witness :
  Main.main (Main.Args "vgg" "CIFAR10" 1000) 500
    = Raised (UnboundLocalError "num_samples").
Proof.
  destruct (main_py_restricted_size_raises
              (Main.Args "vgg" "CIFAR10" 1000) 500) as [_ Hraise].
  - cbn. lia.
  - apply Hraise. reflexivity.
Defined.

(** With the default -1 [main] of [main.py] does reach the training,
    on a training set that is not empty. *)
Lemma main_py_default_size (a : Main.args) (len_train_dataset : nat) :
  Main.model a = "vgg"%string ->
  Main.trainingsetsize a = (-1)%Z ->
  len_train_dataset <> 0%nat ->
  exists nchannels,
    Main.main a len_train_dataset
      = Training (VGG nchannels 10) len_train_dataset.
Proof.
  intros Hm Hs Hlen. unfold Main.main. rewrite Hm, Hs. cbn.
  rewrite decide_False by done. by eexists.
Qed.

(** ** Sharpness *)

Lemma add_perturbation_unfold name w ch alpha :
  add_perturbation (NNModule name w ch) alpha =
    if iterable name then
      ch' ← add_perturbation_loop (fun c => add_perturbation c alpha) alpha ch;
      Ok (NNModule name w ch')
    else Raise TypeError.
Proof. reflexivity. Qed.

(** The assignment of the perturbation to the weight of a layer is
    refused. *)
Lemma add_module_perturbation_raises (module : nn_module) (alpha : R) :
  add_module_perturbation module alpha = Raise TypeError.
Proof. reflexivity. Qed.

(** [add_perturbation] returns on models without layers only, and leaves
    them as they are. *)
Lemma add_perturbation_returns_without_layers (alpha : R) (m m' : nn_module) :
  add_perturbation m alpha = Ok m' -> layers m = [] /\ m' = m.
Proof.
  revert m'. induction m as [name w ch IH] using nn_module_children_ind.
  intros m'. rewrite add_perturbation_unfold.
  destruct (iterable name); [| done].
  destruct (add_perturbation_loop (fun c => add_perturbation c alpha) alpha ch)
    as [ch' | e] eqn:Hloop; [| done].
  rewrite bind_Ok. intros [= <-]. cbn [layers].
  enough (flat_map (fun c => if is_layer (get_name c) then [c] else layers c) ch
          = [] /\ ch' = ch) as [-> ->] by done.
  revert ch' Hloop. induction ch as [| c ch IHch]; intros ch' Hloop.
  - cbn in Hloop. by injection Hloop as <-.
  - apply Forall_cons in IH as [IHc IH]. cbn [add_perturbation_loop] in Hloop.
    destruct (is_layer (get_name c)) eqn:Hlayer.
    { by rewrite add_module_perturbation_raises in Hloop. }
    destruct (add_perturbation c alpha) as [c' | e] eqn:Hc; [| done].
    rewrite bind_Ok in Hloop.
    destruct (add_perturbation_loop _ alpha ch) as [rest' | e] eqn:Hrest;
      [| done].
    rewrite bind_Ok in Hloop. injection Hloop as <-.
    destruct (IHc c' eq_refl) as [Hnil ->].
    destruct (IHch IH rest' eq_refl) as [Hnil' ->].
    cbn [flat_map]. by rewrite Hlayer, Hnil, Hnil'.
Qed.

Lemma percentile_singleton (x : R) (q : nat) : percentile [x] q = Some x.
Proof.
  unfold percentile. cbn. rewrite Nat.mul_0_r. cbn. f_equal. field.
Qed.

(** [validate] of [train.py] on the loader of one example with one
    class. *)
Lemma validate_one_example (f : R -> list R) (s : R) :
  f 1 = [s] ->
  Train.validate f one_example first_score = Ok (0, s, Some 0).
Proof.
  intros Hf. unfold Train.validate, one_example. cbn [batches run step data target].
  cbn -[percentile]. rewrite Hf. cbn -[percentile].
  repeat case_decide; try lia. cbn -[percentile].
  rewrite !truediv_nonzero by lra. cbn -[percentile].
  rewrite percentile_singleton. do 2 f_equal; [f_equal |]; try lra.
  f_equal; lra.
Qed.

(** [calc_sharpness] returns on no input: the perturbation of a layer is
    refused, and on a model without layers [torch.max] refuses the Python
    number. *)
Lemma calc_sharpness_never_returns {input : Type}
  (forward : nn_module -> input -> list R) (model : nn_module)
  (train_loader : loader input) (criterion : list (list R) -> list nat -> R)
  (v : R * nn_module) :
  calc_sharpness forward model train_loader criterion <> Ok v.
Proof.
  unfold calc_sharpness.
  destruct (Train.validate (forward model) train_loader criterion)
    as [[[e1 l1] m1] | e]; [| done].
  rewrite bind_Ok.
  destruct (add_perturbation model default_alpha) as [model' | e]; [| done].
  rewrite bind_Ok.
  destruct (Train.validate (forward model') train_loader criterion)
    as [[[e2 l2] m2] | e]; done.
Qed.

(** C6 (fails on the code): on the one-layer model with weight 1, with
    the forward pass [y = w * x], the single example 1 and the first score
    as loss, [calc_sharpness] raises a [TypeError]:
    [add_module_perturbation] assigns the perturbation
    [alpha * (|w| + 1)], a plain tensor, to the registered parameter
    [weight] (in the place of [w], not added to it), which torch
    refuses. The increase of the loss when the perturbation is added to
    [w] is [2 * alpha]. *)
Theorem calc_sharpness_raises_TypeError :
  calc_sharpness scale_forward one_layer one_example first_score
    = Raise TypeError
  /\ sharpness scale_forward one_layer one_example first_score
      = 2 * default_alpha.
Proof.
  assert (Rabs 1 = 1) as Habs by (apply Rabs_pos_eq; lra).
  assert (Train.validate (scale_forward one_layer) one_example first_score
          = Ok (0, 1, Some 0)) as Hclean.
  { apply validate_one_example. unfold scale_forward.
    change (first_weight one_layer) with 1. f_equal. lra. }
  split.
  - unfold calc_sharpness. rewrite Hclean, bind_Ok.
    unfold one_layer. rewrite add_perturbation_unfold.
    change (iterable "Sequential") with true. cbv iota.
    cbn [add_perturbation_loop].
    change (is_layer (get_name (NNModule "Linear" [[1]] []))) with true.
    cbv iota. by rewrite add_module_perturbation_raises.
  - unfold sharpness, loss_of. rewrite Hclean.
    rewrite (validate_one_example _ (1 + 2 * default_alpha)); [lra |].
    unfold scale_forward.
    change (first_weight (add_to_weights default_alpha one_layer))
      with (perturbed default_alpha 1).
    unfold perturbed. rewrite Habs. f_equal. lra.
Qed.

(** ** Largest and smallest entries of a row *)

Lemma is_max_unique (l : list R) (m m' : R) :
  is_max l m -> is_max l m' -> m = m'.
Proof.
  intros [Hin Hub] [Hin' Hub'].
  apply Rle_antisym; [by apply Hub' | by apply Hub].
Qed.

Lemma foldr_Rmax_is_max (x : R) (r : list R) :
  is_max (x :: r) (foldr Rmax x r).
Proof.
  induction r as [| y r [Hin Hub]]; cbn [foldr].
  - split; [by left |]. intros z Hz%list_elem_of_singleton. lra.
  - split.
    + destruct (Rle_dec y (foldr Rmax x r)).
      * rewrite Rmax_right by done.
        apply elem_of_cons in Hin as [-> | Hin]; [by left |].
        by do 2 right.
      * rewrite Rmax_left by lra. right. by left.
    + intros z Hz. rewrite !elem_of_cons in Hz.
      destruct Hz as [-> | [-> | Hz]].
      * eapply Rle_trans; [apply Hub; by left | apply Rmax_r].
      * apply Rmax_l.
      * eapply Rle_trans; [apply Hub; by right | apply Rmax_r].
Qed.

Lemma max_of_is_max (r : list R) : r <> [] -> is_max r (max_of r).
Proof. destruct r; [done |]. intros _. apply foldr_Rmax_is_max. Qed.

Lemma foldr_Rmin_is_min (x : R) (r : list R) :
  foldr Rmin x r ∈ x :: r /\ forall y, y ∈ x :: r -> foldr Rmin x r <= y.
Proof.
  induction r as [| y r [Hin Hlb]]; cbn [foldr].
  - split; [by left |]. intros z Hz%list_elem_of_singleton. lra.
  - split.
    + destruct (Rle_dec y (foldr Rmin x r)).
      * rewrite Rmin_left by done. right. by left.
      * rewrite Rmin_right by lra.
        apply elem_of_cons in Hin as [-> | Hin]; [by left |].
        by do 2 right.
    + intros z Hz. rewrite !elem_of_cons in Hz.
      destruct Hz as [-> | [-> | Hz]].
      * eapply Rle_trans; [apply Rmin_r | apply Hlb; by left].
      * apply Rmin_l.
      * eapply Rle_trans; [apply Rmin_r | apply Hlb; by right].
Qed.

Lemma min_of_le (r : list R) (y : R) : y ∈ r -> min_of r <= y.
Proof.
  destruct r as [| x r]; [by intros ?%elem_of_nil |].
  apply foldr_Rmin_is_min.
Qed.

Lemma row_min_ok (r : list R) : r <> [] -> row_min r = Ok (min_of r).
Proof. by destruct r. Qed.

Lemma row_argmax_ok (r : list R) : r <> [] -> row_argmax r = Ok (argmax_of r).
Proof. by destruct r. Qed.

(** The scan keeps the index of a largest entry seen so far. *)
Lemma argmax_from_spec (r pre : list R) (best : R) (besti : nat) :
  pre !! besti = Some best ->
  (forall y, y ∈ pre -> y <= best) ->
  exists m,
    (pre ++ r) !! argmax_from r best besti (length pre) = Some m
    /\ is_max (pre ++ r) m.
Proof.
  revert pre best besti.
  induction r as [| x r IH]; intros pre best besti Hbest Hub; cbn [argmax_from].
  - exists best. rewrite app_nil_r. split; [done |].
    split; [by eapply list_elem_of_lookup_2 | done].
  - replace (pre ++ x :: r) with ((pre ++ [x]) ++ r) by by rewrite <- app_assoc.
    replace (S (length pre)) with (length (pre ++ [x]))
      by (rewrite length_app; cbn; lia).
    destruct (Rlt_dec best x) as [Hlt | Hge].
    + apply IH.
      * rewrite lookup_app_r by lia. by rewrite Nat.sub_diag.
      * intros y [Hy | Hy%list_elem_of_singleton]%elem_of_app; [| lra].
        specialize (Hub y Hy). lra.
    + apply IH.
      * by apply lookup_app_l_Some.
      * intros y [Hy | Hy%list_elem_of_singleton]%elem_of_app; [by apply Hub |].
        lra.
Qed.

Lemma argmax_of_is_max (r : list R) :
  r <> [] -> exists m, r !! argmax_of r = Some m /\ is_max r m.
Proof.
  destruct r as [| x r]; [done |]. intros _. unfold argmax_of.
  apply (argmax_from_spec r [x] x 0); [done |].
  intros y Hy%list_elem_of_singleton. lra.
Qed.

(** Lowering the entry of the true class to the minimum leaves the largest
    of the other entries as the largest entry of the row. *)
Lemma masked_is_max (row : list R) (t : nat) (best : R) :
  (t < length row)%nat ->
  max_other row t = Some best ->
  is_max (masked row t) best.
Proof.
  intros Ht Hbest. unfold max_other in Hbest.
  destruct (delete t row) as [| x r] eqn:Hdel; [done |].
  injection Hbest as <-.
  destruct (foldr_Rmax_is_max x r) as [Hin Hub]. rewrite <- Hdel in Hin, Hub.
  rewrite delete_take_drop in Hin, Hub.
  unfold masked. rewrite insert_take_drop by done.
  split.
  - apply elem_of_app in Hin as [Hin | Hin]; apply elem_of_app; [by left |].
    right. by right.
  - intros y [Hy | [-> | Hy]%elem_of_cons]%elem_of_app.
    + apply Hub, elem_of_app. by left.
    + eapply Rle_trans; [| apply Hub, Hin].
      apply min_of_le.
      rewrite <- (take_drop t row).
      apply elem_of_app in Hin as [Hin | Hin]; apply elem_of_app; [by left |].
      right. rewrite <- (take_drop 1 (drop t row)), drop_drop.
      apply elem_of_app. right. by replace (t + 1)%nat with (S t) by lia.
    + apply Hub, elem_of_app. by right.
Qed.

(** ** The margins of a batch *)

Lemma mask_targets_ok (pre rows : list (list R)) (tgt : list nat) :
  Forall2 (fun row t => (t < length row)%nat) rows tgt ->
  mask_targets (pre ++ rows) (length pre) tgt
    = Ok (pre ++ zip_with masked rows tgt).
Proof.
  intros Hwf. revert pre.
  induction Hwf as [| row t rows tgt Ht _ IH]; intros pre.
  - done.
  - cbn [mask_targets zip_with]. unfold mask_row.
    rewrite list_lookup_middle by done.
    rewrite row_min_ok by (intros ->; cbn in Ht; lia).
    rewrite bind_Ok, decide_True, bind_Ok by done.
    rewrite insert_app_r_alt, Nat.sub_diag by lia. cbn [insert list_insert].
    replace (pre ++ <[t:=min_of row]> row :: rows)
      with ((pre ++ [masked row t]) ++ rows) by by rewrite <- app_assoc.
    replace (S (length pre)) with (length (pre ++ [masked row t]))
      by (rewrite length_app; cbn; lia).
    rewrite IH. by rewrite <- app_assoc.
Qed.

Lemma diag_at_ok (m : list (list R)) (cols : list nat) :
  Forall2 (fun row c => (c < length row)%nat) m cols ->
  diag_at m cols = Ok (zip_with (fun row c => nth c row 0) m cols).
Proof.
  induction 1 as [| row c m cols Hc _ IH]; [done |].
  cbn [diag_at zip_with].
  destruct (lookup_lt_is_Some_2 row c Hc) as [v Hv]. rewrite Hv, IH, bind_Ok.
  do 2 f_equal. symmetry. by apply nth_lookup_Some.
Qed.

Lemma mapM_row_argmax_ok (m : list (list R)) :
  Forall (fun row => row <> []) m ->
  mapM row_argmax m = Ok (map argmax_of m).
Proof.
  induction 1 as [| row m Hrow _ IH]; [done |].
  cbn [mapM map]. by rewrite row_argmax_ok, bind_Ok, IH.
Qed.

Lemma masked_length (row : list R) (t : nat) :
  length (masked row t) = length row.
Proof. apply length_insert. Qed.

Lemma nth_argmax_of (row : list R) :
  row <> [] -> nth (argmax_of row) row 0 = max_of row.
Proof.
  intros Hrow. destruct (argmax_of_is_max row Hrow) as (m & Hm & Hmax).
  rewrite (nth_lookup_Some _ _ _ _ Hm).
  eapply is_max_unique; [exact Hmax | by apply max_of_is_max].
Qed.

Lemma argmax_of_lt (row : list R) :
  row <> [] -> (argmax_of row < length row)%nat.
Proof.
  intros Hrow. destruct (argmax_of_is_max row Hrow) as (m & Hm & _).
  by eapply lookup_lt_Some.
Qed.

(** The margins of a batch, entry by entry. *)
Lemma batch_margin_ok (output : list (list R)) (target : list nat) :
  Forall2 (fun row t => (t < length row)%nat) output target ->
  batch_margin output target = Ok (zip_with margin_of output target).
Proof.
  intros Hwf. unfold batch_margin.
  pose proof (mask_targets_ok [] output target Hwf) as Hmask.
  cbn [app length] in Hmask. rewrite Hmask, bind_Ok. clear Hmask.
  rewrite (diag_at_ok _ _ Hwf), bind_Ok.
  assert (Forall (fun row => row <> []) (zip_with masked output target)) as Hne.
  { clear -Hwf. induction Hwf as [| row t ? ? Ht _ IH]; constructor; [| done].
    intros Hnil. apply (f_equal length) in Hnil.
    rewrite masked_length in Hnil. cbn in Hnil. lia. }
  rewrite (mapM_row_argmax_ok _ Hne), bind_Ok.
  rewrite diag_at_ok, bind_Ok.
  - f_equal. clear Hne.
    induction Hwf as [| row t output target Ht _ IH]; [done |].
    cbn [zip_with map]. rewrite IH. f_equal. unfold margin_of. f_equal.
    apply nth_argmax_of. intros Hnil. apply (f_equal length) in Hnil.
    rewrite masked_length in Hnil. cbn in Hnil. lia.
  - clear -Hne. induction Hne as [| row m Hrow _ IH]; constructor; [| done].
    by apply argmax_of_lt.
Qed.

(** The margin that the loop computes is the gap between the score of
    the true class and the best score of another class. *)
Lemma margin_of_example (row : list R) (t : nat) (g : R) :
  example_margin row t = Some g -> margin_of row t = g.
Proof.
  unfold example_margin. intros Hg.
  destruct (row !! t) as [s |] eqn:Hs; [| done]. cbn in Hg.
  destruct (max_other row t) as [best |] eqn:Hbest; [| done]. cbn in Hg.
  injection Hg as <-. unfold margin_of.
  rewrite (nth_lookup_Some _ _ _ _ Hs). f_equal.
  assert (t < length row)%nat as Ht by by eapply lookup_lt_Some.
  eapply is_max_unique; [| by apply masked_is_max].
  apply max_of_is_max. intros Hnil. apply (f_equal length) in Hnil.
  rewrite masked_length in Hnil. cbn in Hnil. lia.
Qed.

(** ** One pass over the batches *)

Lemma labelled_rows {input : Type} (model : input -> list R)
  (b : batch input) :
  labelled model b ->
  Forall2 (fun row t => (t < length row)%nat) (map model (data b)) (target b).
Proof.
  unfold labelled, data, target.
  induction 1 as [| [x t] b Ht _ IH]; cbn; constructor; done.
Qed.

Lemma count_eq_correct {input : Type} (model : input -> list R)
  (b : batch input) :
  labelled model b ->
  count_eq (map argmax_of (map model (data b))) (target b)
    = length (filter (correct model) b).
Proof.
  unfold labelled, data, target, count_eq.
  induction 1 as [| [x t] b Ht _ IH]; [done |].
  cbn [fmap list_fmap map zip zip_with fst snd].
  cbn [fst snd] in Ht.
  assert (correct model (x, t) <-> argmax_of (model x) = t) as Hc.
  { unfold correct. cbn [fst snd].
    rewrite row_argmax_ok by (intros Hnil; rewrite Hnil in Ht; cbn in Ht; lia).
    split; congruence. }
  destruct (decide (correct model (x, t))) as [Hyes | Hno].
  - rewrite (filter_cons_True (correct model)) by done.
    rewrite filter_cons_True by by apply Hc.
    cbn [length]. f_equal. exact IH.
  - rewrite (filter_cons_False (correct model)) by done.
    rewrite filter_cons_False by (intros ?; by apply Hno, Hc).
    exact IH.
Qed.

Lemma zip_with_margin_of {input : Type} (model : input -> list R)
  (b : batch input) :
  zip_with margin_of (map model (data b)) (target b)
    = map (fun e => margin_of (model e.1) e.2) b.
Proof.
  unfold data, target. induction b as [| [x t] b IH]; [done |].
  cbn. by rewrite <- IH.
Qed.

Lemma step_ok {input : Type} (model : input -> list R)
  (criterion : list (list R) -> list nat -> R) (a : acc) (b : batch input) :
  labelled model b ->
  step model criterion a b =
    Ok (Acc (sum_loss a
             + INR (length b) * criterion (map model (data b)) (target b))
          (sum_correct a + length (filter (correct model) b))
          (margin a ++ map (fun e => margin_of (model e.1) e.2) b)).
Proof.
  intros Hb. unfold step.
  pose proof (labelled_rows model b Hb) as Hrows.
  rewrite mapM_row_argmax_ok, bind_Ok.
  - rewrite (batch_margin_ok _ _ Hrows), bind_Ok.
    rewrite count_eq_correct, zip_with_margin_of by done.
    do 3 f_equal. unfold data. by rewrite length_fmap.
  - clear -Hrows. induction Hrows as [| row t ? ? Ht _ IH]; constructor; [| done].
    intros ->. cbn in Ht. lia.
Qed.

Lemma run_ok {input : Type} (model : input -> list R)
  (criterion : list (list R) -> list nat -> R) (bs : list (batch input)) :
  Forall (labelled model) bs ->
  forall a,
    run model criterion a bs =
      Ok (Acc (sum_loss a
               + sum_R (map (fun b : batch input =>
                               INR (length b)
                               * criterion (map model (data b)) (target b)) bs))
            (sum_correct a + length (filter (correct model) (concat bs)))
            (margin a ++ map (fun e => margin_of (model e.1) e.2) (concat bs))).
Proof.
  induction 1 as [| b bs Hb _ IH]; intros a.
  - cbn. unfold sum_R. cbn. rewrite Rplus_0_r, Nat.add_0_r, app_nil_r.
    by destruct a.
  - cbn [run]. rewrite (step_ok _ _ _ _ Hb), bind_Ok, IH. cbn [sum_loss sum_correct margin].
    cbn [concat map]. rewrite filter_app, length_app, map_app, app_assoc.
    f_equal. f_equal.
    + unfold sum_R. cbn [foldr]. lra.
    + by rewrite Nat.add_assoc.
Qed.

(** The margins exist when every example has its label among at least
    two classes. *)
Lemma margins_labelled {input : Type} (model : input -> list R)
  (es : list (input * nat)) (ms : list R) :
  Forall2 (fun e g => example_margin (model e.1) e.2 = Some g) es ms ->
  labelled model es /\ map (fun e => margin_of (model e.1) e.2) es = ms.
Proof.
  induction 1 as [| e g es ms Hg _ [IHl IHm]]; [by split; [constructor |] |].
  split.
  - constructor; [| done]. unfold example_margin in Hg.
    destruct (model e.1 !! e.2) eqn:Hs; [| done]. by eapply lookup_lt_Some.
  - cbn [map]. rewrite IHm. f_equal. by apply margin_of_example.
Qed.

Lemma labelled_concat {input : Type} (model : input -> list R)
  (bs : list (batch input)) :
  labelled model (concat bs) -> Forall (labelled model) bs.
Proof.
  unfold labelled. induction bs as [| b bs IH]; [constructor |].
  cbn [concat]. rewrite Forall_app. intros [Hb Hbs]. constructor; auto.
Qed.

(** The accumulators after the loop of [validate]. *)
Lemma validate_loop {input : Type} (model : input -> list R)
  (criterion : list (list R) -> list nat -> R) (ld : loader input)
  (ms : list R) :
  Forall2 (fun e g => example_margin (model e.1) e.2 = Some g)
    (examples ld) ms ->
  run model criterion (Acc 0 0 []) (batches ld) =
    Ok (Acc (sum_R (map (fun b : batch input =>
                           INR (length b)
                           * criterion (map model (data b)) (target b))
                      (batches ld)))
          (length (filter (correct model) (examples ld)))
          ms).
Proof.
  intros Hms. apply margins_labelled in Hms as [Hl Hm].
  rewrite run_ok by by apply labelled_concat.
  cbn [sum_loss sum_correct margin app]. unfold examples in Hm.
  rewrite Hm, Rplus_0_l. done.
Qed.

(** C4: in [validate], for example [i] of a batch, with the scores
    [model x] and the label [t] among them, the margin appended for the
    example is the score of class [t] minus the largest score of the
    classes other than [t]. *)
Theorem validate_margin_is_gap {input : Type} (model : input -> list R)
  (criterion : list (list R) -> list nat -> R) (a : acc) (b : batch input)
  (i : nat) (x : input) (t : nat) (s best : R) :
  labelled model b ->
  b !! i = Some (x, t) ->
  model x !! t = Some s ->
  max_other (model x) t = Some best ->
  exists a',
    step model criterion a b = Ok a'
    /\ margin a' !! (length (margin a) + i)%nat = Some (s - best).
Proof.
  intros Hb Hi Hs Hbest. eexists. split; [by apply step_ok |].
  cbn [margin]. rewrite lookup_app_r by lia.
  replace (length (margin a) + i - length (margin a))%nat with i by lia.
  rewrite list_lookup_fmap_Some. exists (x, t). split; [| done]. cbn [fst snd].
  symmetry. apply margin_of_example. unfold example_margin.
  rewrite Hs, Hbest. done.
Qed.

Lemma validate_margin_is_gap_witness :
  exists a',
    step three_scores first_score (Acc 0 0 []) two_examples = Ok a'
    /\ margin a' !! 1%nat = Some (2 - Rmax 1 3).
Proof.
  apply (validate_margin_is_gap three_scores first_score (Acc 0 0 [])
           two_examples 1 1%nat 2 2 (Rmax 1 3)).
  - repeat constructor; cbn; lia.
  - reflexivity.
  - reflexivity.
  - reflexivity.
Defined.

(** C10: when every example has its label among at least two classes and
    the loader yields as many examples as the length [validate] divides by
    (that of the sampler in [train.py], that of the dataset in [main.py]),
    [validate] returns 1 minus the fraction of the examples classified
    correctly, the average of the batch losses weighted by the batch
    lengths, and the 5th percentile of the margins of all the examples of
    all the batches. *)
Theorem validate_returns_error_loss_percentile {input : Type}
  (model : input -> list R) (criterion : list (list R) -> list nat -> R)
  (ld : loader input) (ms : list R) :
  Forall2 (fun e g => example_margin (model e.1) e.2 = Some g)
    (examples ld) ms ->
  examples ld <> [] ->
  (sampler_len ld = length (examples ld) ->
   Train.validate model ld criterion =
     Ok (1 - accuracy model ld, average_loss model criterion ld,
         percentile ms 5))
  /\ (dataset_len ld = length (examples ld) ->
      Main.validate model ld criterion =
        Ok (1 - accuracy model ld, average_loss model criterion ld,
            percentile ms 5)).
Proof.
  intros Hms Hne.
  assert (INR (length (examples ld)) <> 0) as Hlen.
  { apply not_0_INR. by destruct (examples ld). }
  assert (length (examples ld) <> 0)%nat as Hlen' by by destruct (examples ld).
  split; intros Hn.
  - unfold Train.validate. rewrite (validate_loop _ _ _ _ Hms), bind_Ok.
    cbn [sum_loss sum_correct margin].
    rewrite decide_False by lia. rewrite Hn.
    by rewrite !truediv_nonzero, !bind_Ok by done.
  - unfold Main.validate. rewrite (validate_loop _ _ _ _ Hms), bind_Ok.
    cbn [sum_loss sum_correct margin]. rewrite Hn.
    by rewrite !truediv_nonzero, !bind_Ok by done.
Qed.

Lemma validate_returns_error_loss_percentile_witness :
  Train.validate three_scores two_loader first_score =
    Ok (1 - accuracy three_scores two_loader,
        average_loss three_scores first_score two_loader,
        percentile [3 - Rmax 2 1; 2 - Rmax 1 3] 5)
  /\ Main.validate three_scores two_loader first_score =
      Ok (1 - accuracy three_scores two_loader,
          average_loss three_scores first_score two_loader,
          percentile [3 - Rmax 2 1; 2 - Rmax 1 3] 5).
Proof.
  destruct (validate_returns_error_loss_percentile three_scores first_score
              two_loader [3 - Rmax 2 1; 2 - Rmax 1 3]) as [Htrain Hmain].
  - repeat constructor.
  - discriminate.
  - split; [apply Htrain | apply Hmain]; reflexivity.
Defined.

(** ** The path norm and the store *)

Lemma st_bind_run {A B : Type} (m : st A) (k : A -> st B) (h : store) :
  (m ≫= k) h =
    match m h with
    | (h', Ok a) => k a h'
    | (h', Raise e) => (h', Raise e)
    end.
Proof. reflexivity. Qed.

Lemma st_bind_Ok {A B : Type} (m : st A) (k : A -> st B) (h h' : store) (a : A) :
  m h = (h', Ok a) -> (m ≫= k) h = k a h'.
Proof. intros Hm. by rewrite st_bind_run, Hm. Qed.

Lemma st_bind_Raise {A B : Type} (m : st A) (k : A -> st B) (h h' : store) e :
  m h = (h', Raise e) -> (m ≫= k) h = (h', Raise e).
Proof. intros Hm. by rewrite st_bind_run, Hm. Qed.

Lemma get_param_Some (l : loc) (prm : parameter) (h : store) :
  h !! l = Some prm -> get_param l h = (h, Ok prm).
Proof. intros Hl. unfold get_param. by rewrite Hl. Qed.

Lemma get_param_store (l : loc) (h : store) : (get_param l h).1 = h.
Proof. unfold get_param. by destruct (h !! l). Qed.

Lemma alloc_fresh (prm : parameter) (h : store) :
  h !! fresh (dom h) = None.
Proof. apply not_elem_of_dom, is_fresh. Qed.

(** The copy only adds locations to the store, and the locations it
    returns are distinct and were free before. *)
Lemma copy_params_frame (ls : list loc) (h : store) :
  h ⊆ (copy_params ls h).1
  /\ forall ls', (copy_params ls h).2 = Ok ls' ->
       NoDup ls' /\ Forall (fun l' => h !! l' = None) ls'.
Proof.
  revert h. induction ls as [| l ls IH]; intros h.
  - split; [done |]. intros ls' [= <-]. split; constructor.
  - cbn [copy_params]. rewrite st_bind_run. unfold get_param at 1 2.
    destruct (h !! l) as [prm |] eqn:Hl; [| split; [done | intros ? [=]]].
    rewrite st_bind_run. unfold alloc at 1 2.
    set (l0 := fresh (dom h)). set (h1 := <[l0 := prm]> h).
    assert (h !! l0 = None) as Hl0 by apply (alloc_fresh prm).
    assert (h ⊆ h1) as Hsub by by apply insert_subseteq.
    destruct (IH h1) as [Hgrow Hok].
    rewrite st_bind_run.
    destruct (copy_params ls h1) as [h' [ls'' | e]] eqn:Hcopy; cbn [fst snd] in *.
    + split; [by etrans |].
      intros ls' [= <-].
      destruct (Hok ls'' eq_refl) as (Hnodup & Hfresh).
      split.
      * constructor; [| done].
        intros Hin. rewrite Forall_forall in Hfresh.
        specialize (Hfresh _ Hin). unfold h1 in Hfresh.
        by rewrite lookup_insert_eq in Hfresh.
      * constructor; [done |].
        eapply Forall_impl; [exact Hfresh |]. intros l' Hl'. cbn in Hl'.
        destruct (h !! l') eqn:Hhl'; [| done].
        eapply lookup_weaken in Hhl'; [| exact Hsub]. congruence.
    + split; [by etrans | intros ? [=]].
Qed.

(** When the parameters are in the store, the copy returns and the new
    locations hold their values. *)
Lemma copy_params_values (ls : list loc) (prms : list parameter) (h : store) :
  Forall2 (fun l prm => h !! l = Some prm) ls prms ->
  exists ls',
    (copy_params ls h).2 = Ok ls'
    /\ Forall2 (fun l' prm => (copy_params ls h).1 !! l' = Some prm) ls' prms.
Proof.
  intros Hls. revert h prms Hls.
  induction ls as [| l ls IH]; intros h prms Hls.
  - apply Forall2_nil_inv_l in Hls as ->. exists []. split; [done | constructor].
  - apply Forall2_cons_inv_l in Hls as (prm & prms' & Hl & Hls & ->).
    cbn [copy_params]. rewrite st_bind_run, (get_param_Some _ _ _ Hl).
    rewrite st_bind_run. unfold alloc at 1 2.
    set (l0 := fresh (dom h)). set (h1 := <[l0 := prm]> h).
    assert (h !! l0 = None) as Hl0 by apply (alloc_fresh prm).
    assert (h ⊆ h1) as Hsub by by apply insert_subseteq.
    destruct (IH h1 prms') as (ls'' & Hok & Hvals).
    { eapply Forall2_impl; [exact Hls |]. intros k v Hk. cbn in Hk.
      by eapply lookup_weaken. }
    pose proof (copy_params_frame ls h1) as [Hgrow _].
    rewrite st_bind_run.
    destruct (copy_params ls h1) as [h' r] eqn:Hcopy; cbn [fst snd] in *.
    subst r. exists (l0 :: ls''). split; [done |].
    constructor; [| done]. cbn [fst].
    eapply lookup_weaken; [| exact Hgrow]. apply lookup_insert_eq.
Qed.

Lemma map__Some (grad : bool) (f : R -> R) (l : loc) (prm : parameter)
  (h : store) :
  h !! l = Some prm ->
  grad && requires_grad prm = false ->
  map_ grad f l h
    = (<[l := Param (requires_grad prm) (map f (Measures.data prm))]> h, Ok tt).
Proof. intros Hl Hg. unfold map_. by rewrite Hl, Hg. Qed.

Lemma map__refused (grad : bool) (f : R -> R) (l : loc) (prm : parameter)
  (h : store) :
  h !! l = Some prm ->
  grad && requires_grad prm = true ->
  map_ grad f l h = (h, Raise RuntimeError).
Proof. intros Hl Hg. unfold map_. by rewrite Hl, Hg. Qed.

Lemma map__frame (grad : bool) (f : R -> R) (l k : loc) (h : store) :
  k <> l -> (map_ grad f l h).1 !! k = h !! k.
Proof.
  intros Hne. unfold map_. destruct (h !! l) as [prm |]; [| done].
  destruct (grad && requires_grad prm); [done |].
  cbn [fst]. by rewrite lookup_insert_ne.
Qed.

(** The body of the loop on one parameter: [abs_] then [pow_]. *)
Lemma abs_pow_one (grad : bool) (p : nat) (l : loc) (prm : parameter)
  (h : store) :
  h !! l = Some prm ->
  grad && requires_grad prm = false ->
  (_ ← abs_ grad l; pow_ grad p l) h
    = (<[l := Param (requires_grad prm)
                (map (fun w => Rabs w ^ p) (Measures.data prm))]> h, Ok tt).
Proof.
  intros Hl Hg. unfold abs_, pow_.
  erewrite st_bind_Ok by (by apply (map__Some grad Rabs l prm)).
  erewrite (map__Some grad _ l (Param (requires_grad prm) _));
    [| apply lookup_insert_eq | done].
  cbn [requires_grad Measures.data].
  by rewrite insert_insert_eq, map_map.
Qed.

(** While autograd records, the first in-place operation on a parameter
    that requires grad is refused and the store stays as it is. *)
Lemma abs_pow_one_refused (p : nat) (l : loc) (prm : parameter) (h : store) :
  h !! l = Some prm ->
  requires_grad prm = true ->
  (_ ← abs_ true l; pow_ true p l) h = (h, Raise RuntimeError).
Proof.
  intros Hl Hg. unfold abs_.
  erewrite st_bind_Raise; [done |].
  apply (map__refused true Rabs l prm h Hl). by rewrite Hg.
Qed.

(** The loop changes the store at the parameters it runs over only. *)
Lemma abs_pow_params_frame (grad : bool) (ls : list loc) (p : nat) (h : store)
  (k : loc) :
  k ∉ ls -> (abs_pow_params grad ls p h).1 !! k = h !! k.
Proof.
  revert h. induction ls as [| l ls IH]; intros h Hk; [done |].
  apply not_elem_of_cons in Hk as [Hne Hk].
  cbn [abs_pow_params]. rewrite st_bind_run. unfold get_param.
  destruct (h !! l) as [prm |] eqn:Hl; [| done].
  rewrite st_bind_run.
  destruct (requires_grad prm) eqn:Hrg.
  - destruct grad.
    + by rewrite (abs_pow_one_refused _ _ _ _ Hl Hrg).
    + rewrite (abs_pow_one false _ _ _ _ Hl eq_refl). rewrite IH by done.
      by rewrite lookup_insert_ne.
  - cbn. by rewrite IH.
Qed.

Lemma lookups_insert_other (l : loc) (prm1 : parameter) (h : store)
  (ls : list loc) (prms : list parameter) :
  l ∉ ls ->
  Forall2 (fun k v => h !! k = Some v) ls prms ->
  Forall2 (fun k v => <[l := prm1]> h !! k = Some v) ls prms.
Proof.
  intros Hl Hls. induction Hls as [| k v ls prms Hk _ IH]; [constructor |].
  apply not_elem_of_cons in Hl as [Hne Hl].
  constructor; [by rewrite lookup_insert_ne | by apply IH].
Qed.

(** Where the in-place operations are allowed, the loop returns and the
    parameters it ran over hold the powered values. *)
Lemma abs_pow_params_values (grad : bool) (ls : list loc)
  (prms : list parameter) (p : nat) (h : store) :
  in_place_allowed grad prms ->
  NoDup ls ->
  Forall2 (fun l prm => h !! l = Some prm) ls prms ->
  (abs_pow_params grad ls p h).2 = Ok tt
  /\ Forall2 (fun l prm =>
                exists prm', (abs_pow_params grad ls p h).1 !! l = Some prm'
                             /\ Measures.data prm' = powered p prm) ls prms.
Proof.
  intros Hallowed Hnd Hls. revert h prms Hallowed Hls.
  induction Hnd as [| l ls Hl Hnd IH]; intros h prms Hallowed Hls.
  - apply Forall2_nil_inv_l in Hls as ->. split; [done | constructor].
  - apply Forall2_cons_inv_l in Hls as (prm & prms' & Hhl & Hls & ->).
    apply Forall_cons in Hallowed as [Hprm Hallowed].
    cbn [abs_pow_params]. rewrite st_bind_run, (get_param_Some _ _ _ Hhl).
    rewrite st_bind_run.
    set (prm1 := Param (requires_grad prm) (powered p prm)).
    assert ((if requires_grad prm
             then _ ← abs_ grad l; pow_ grad p l else mret ()) h
            = (<[l := prm1]> h, Ok tt)) as ->.
    { unfold prm1, powered. destruct (requires_grad prm) eqn:Hrg.
      - rewrite (abs_pow_one grad _ _ _ _ Hhl); [by rewrite Hrg |].
        by rewrite Hrg.
      - rewrite insert_id; [done |].
        rewrite Hhl. f_equal. destruct prm. cbn in *. by subst. }
    destruct (IH (<[l := prm1]> h) prms') as [Hok Hvals]; [done | |].
    { by apply lookups_insert_other. }
    split; [done |]. constructor; [| done].
    exists prm1. split; [| done].
    rewrite abs_pow_params_frame by done. apply lookup_insert_eq.
Qed.

(** While autograd records, the loop is refused at the first parameter
    that requires grad; the parameters before it are skipped, so the store
    is as before. *)
Lemma abs_pow_params_refused (ls : list loc) (prms : list parameter) (p : nat)
  (h : store) :
  Forall2 (fun l prm => h !! l = Some prm) ls prms ->
  Exists (fun prm => requires_grad prm = true) prms ->
  abs_pow_params true ls p h = (h, Raise RuntimeError).
Proof.
  intros Hls Hex. induction Hls as [| l prm ls prms Hl _ IH]; cbn [abs_pow_params].
  - by apply Exists_nil in Hex.
  - rewrite st_bind_run, (get_param_Some _ _ _ Hl), st_bind_run.
    destruct (requires_grad prm) eqn:Hrg.
    + by rewrite (abs_pow_one_refused _ _ _ _ Hl Hrg).
    + cbn. apply IH. apply Exists_cons in Hex as [Hex | Hex]; [congruence | done].
Qed.

Lemma read_params_store (ls : list loc) (h : store) : (read_params ls h).1 = h.
Proof.
  induction ls as [| l ls IH]; [done |].
  cbn [read_params]. rewrite st_bind_run. unfold get_param.
  destruct (h !! l); [| done]. rewrite st_bind_run.
  destruct (read_params ls h) as [h' [vs | e]]; cbn in *; done.
Qed.

Lemma read_params_values (ls : list loc) (vals : list (list R)) (h : store) :
  Forall2 (fun l v => exists prm, h !! l = Some prm /\ Measures.data prm = v)
    ls vals ->
  read_params ls h = (h, Ok vals).
Proof.
  induction 1 as [| l v ls vals (prm & Hl & <-) _ IH]; [done |].
  cbn [read_params]. rewrite st_bind_run, (get_param_Some _ _ _ Hl).
  by rewrite st_bind_run, IH.
Qed.

(** The steps of [lp_path_norm] when the copy, the loop and the forward
    pass return. *)
Lemma lp_path_norm_run (grad : bool) (model : torch_model) (p : nat)
  (input_size : list nat) (h h1 h2 : store) (ls' : list loc)
  (vals : list (list R)) :
  copy_params (parameters model) h = (h1, Ok ls') ->
  abs_pow_params grad ls' p h1 = (h2, Ok tt) ->
  read_params ls' h2 = (h2, Ok vals) ->
  lp_path_norm grad model p input_size h =
    (h2, if decide (p = 0%nat) then Raise ZeroDivisionError
         else Ok (pow_inv (sum_R (forward model false vals (ones input_size)))
                    p)).
Proof.
  intros Hcopy Hloop Hread. unfold lp_path_norm, deepcopy, call.
  rewrite !st_bind_run, Hcopy. cbn [mret st_mret st_ret eval parameters].
  rewrite st_bind_run, Hloop. rewrite !st_bind_run, Hread.
  cbn [mret st_mret st_ret training forward].
  by destruct (decide (p = 0%nat)).
Qed.

(** The store only grows under [lp_path_norm], in either grad mode. *)
Lemma lp_path_norm_frame (grad : bool) (model : torch_model) (p : nat)
  (input_size : list nat) (h : store) :
  h ⊆ (lp_path_norm grad model p input_size h).1.
Proof.
  unfold lp_path_norm, deepcopy, call.
  destruct (copy_params_frame (parameters model) h) as [Hgrow Hfresh].
  rewrite !st_bind_run.
  destruct (copy_params (parameters model) h) as [h1 [ls' | e]] eqn:Hcopy;
    cbn [fst snd] in *; [| done].
  destruct (Hfresh ls' eq_refl) as [_ Hfree].
  cbn [mret st_mret st_ret eval parameters].
  assert (h ⊆ (abs_pow_params grad ls' p h1).1) as Hgrow2.
  { apply map_subseteq_spec. intros k v Hk.
    rewrite abs_pow_params_frame; [by eapply lookup_weaken |].
    intros Hin. rewrite Forall_forall in Hfree.
    specialize (Hfree _ Hin). congruence. }
  rewrite st_bind_run.
  destruct (abs_pow_params grad ls' p h1) as [h2 [[] | e]] eqn:Hloop;
    cbn [fst snd] in *; [| done].
  rewrite !st_bind_run.
  pose proof (read_params_store ls' h2) as Hstore.
  destruct (read_params ls' h2) as [h3 [vals | e]]; cbn [fst] in Hstore; subst h3;
    [| done].
  cbn [mret st_mret st_ret]. by destruct (decide (p = 0%nat)).
Qed.

(** The result of [lp_path_norm] where the in-place operations are
    allowed, for every [p]. *)
Lemma lp_path_norm_result (grad : bool) (model : torch_model)
  (prms : list parameter) (p : nat) (input_size : list nat) (h : store) :
  in_place_allowed grad prms ->
  Forall2 (fun l prm => h !! l = Some prm) (parameters model) prms ->
  (lp_path_norm grad model p input_size h).2 =
    if decide (p = 0%nat) then Raise ZeroDivisionError
    else Ok (pow_inv
               (sum_R (forward model false (map (powered p) prms)
                         (ones input_size))) p).
Proof.
  intros Hallowed Hprms.
  destruct (copy_params_values _ _ _ Hprms) as (ls' & Hok & Hvals).
  destruct (copy_params_frame (parameters model) h) as [_ Hfresh].
  destruct (Hfresh ls' Hok) as [Hnd _].
  destruct (copy_params (parameters model) h) as [h1 r1] eqn:Hcopy.
  cbn [fst snd] in *. subst r1.
  destruct (abs_pow_params_values grad ls' prms p h1 Hallowed Hnd Hvals)
    as [Hok2 Hvals2].
  destruct (abs_pow_params grad ls' p h1) as [h2 r2] eqn:Hloop.
  cbn [fst snd] in *. subst r2.
  erewrite lp_path_norm_run; [done | exact Hcopy | exact Hloop |].
  apply read_params_values. by apply Forall2_fmap_r.
Qed.

(** Inside [torch.no_grad()], or when no parameter requires grad: for
    [p >= 1] and a summed output that is not negative, [lp_path_norm]
    returns the p-th root of the summed output, on the all-ones input, of
    the network in evaluation mode with every trainable parameter [w]
    replaced by [|w|^p]. *)
Lemma lp_path_norm_allowed_is_path_norm (grad : bool) (model : torch_model)
  (prms : list parameter) (p : nat) (input_size : list nat) (h : store) :
  in_place_allowed grad prms ->
  Forall2 (fun l prm => h !! l = Some prm) (parameters model) prms ->
  (1 <= p)%nat ->
  0 <= sum_R (forward model false (map (powered p) prms) (ones input_size)) ->
  (lp_path_norm grad model p input_size h).2
    = Ok (Some (path_norm model prms p input_size)).
Proof.
  intros Hallowed Hprms Hp Hsum.
  rewrite (lp_path_norm_result _ _ _ _ _ _ Hallowed Hprms).
  rewrite decide_False by lia. f_equal.
  unfold pow_inv, path_norm.
  destruct (decide (p = 1%nat)) as [-> | Hne].
  - by rewrite nth_root_1.
  - by destruct (Rle_dec 0 _).
Qed.

(** C3 (fails on the code): called with autograd on, which is torch's
    default, on a model whose parameters are in the store and of which one
    requires grad, [lp_path_norm] raises a [RuntimeError]: [param.abs_()]
    is an in-place operation on a leaf that requires grad, and the call
    does not switch autograd off. The value of the path norm is not
    returned. *)
Theorem lp_path_norm_refused_with_autograd (model : torch_model)
  (prms : list parameter) (p : nat) (input_size : list nat) (h : store) :
  Forall2 (fun l prm => h !! l = Some prm) (parameters model) prms ->
  Exists (fun prm => requires_grad prm = true) prms ->
  (lp_path_norm true model p input_size h).2 = Raise RuntimeError.
Proof.
  intros Hprms Hex.
  destruct (copy_params_values _ _ _ Hprms) as (ls' & Hok & Hvals).
  destruct (copy_params (parameters model) h) as [h1 r1] eqn:Hcopy.
  cbn [fst snd] in *. subst r1.
  unfold lp_path_norm, deepcopy.
  rewrite !st_bind_run, Hcopy. cbn [mret st_mret st_ret eval parameters].
  rewrite st_bind_run.
  by rewrite (abs_pow_params_refused ls' prms p h1 Hvals Hex).
Qed.

Lemma lp_path_norm_refused_with_autograd_witness :
  (lp_path_norm true linear_unit 2 [2%nat] linear_store).2
    = Raise RuntimeError.
Proof.
  apply (lp_path_norm_refused_with_autograd linear_unit [linear_unit_weight]
           2 [2%nat] linear_store).
  - repeat constructor.
  - by left.
Defined.

(** On the same input inside [torch.no_grad()] the path norm is
    returned. *)
Lemma lp_path_norm_no_grad_linear_unit :
  (lp_path_norm false linear_unit 2 [2%nat] linear_store).2
    = Ok (Some (path_norm linear_unit [linear_unit_weight] 2 [2%nat])).
Proof.
  apply (lp_path_norm_allowed_is_path_norm false linear_unit
           [linear_unit_weight] 2 [2%nat] linear_store).
  - by repeat constructor.
  - repeat constructor.
  - lia.
  - cbn. unfold dot, sum_R. cbn.
    pose proof (Rabs_pos (-2)). pose proof (Rabs_pos 1). nra.
Qed.

(** The path norm of that input is the square root of 5. *)
Lemma path_norm_linear_unit :
  path_norm linear_unit [linear_unit_weight] 2 [2%nat] = sqrt 5.
Proof.
  unfold path_norm.
  assert (sum_R (forward linear_unit false
                   (map (powered 2) [linear_unit_weight]) (ones [2%nat])) = 5)
    as ->.
  { cbn. unfold dot, sum_R. cbn.
    replace (Rabs (-2)) with 2 by (rewrite Rabs_left; lra).
    rewrite Rabs_pos_eq by lra. lra. }
  unfold nth_root. destruct (Rlt_dec 0 5) as [_ | Hn]; [| lra].
  rewrite <- Rpower_sqrt by lra.
  by rewrite (INR_IZR_INZ 2).
Qed.

(** C9: [lp_path_norm] leaves every parameter of the model it is given at
    the value it has before the call, whatever the call returns and in
    either grad mode; the absolute values and powers go to the copy. *)
Theorem lp_path_norm_leaves_model_unchanged (grad_enabled : bool)
  (model : torch_model) (p : nat) (input_size : list nat) (h : store)
  (l : loc) (prm : parameter) :
  l ∈ parameters model ->
  h !! l = Some prm ->
  (lp_path_norm grad_enabled model p input_size h).1 !! l = Some prm.
Proof.
  intros _ Hl. eapply lookup_weaken; [exact Hl | apply lp_path_norm_frame].
Qed.

Lemma lp_path_norm_leaves_model_unchanged_witness :
  (lp_path_norm true linear_unit 2 [2%nat] linear_store).1 !! 1%positive
    = Some linear_unit_weight.
Proof.
  apply (lp_path_norm_leaves_model_unchanged true linear_unit 2 [2%nat]
           linear_store 1%positive linear_unit_weight).
  - by left.
  - reflexivity.
Defined.

(** * Further properties of the code *)

(** ** Aggregation over the direct children *)

Lemma mixed_model_walks : walks (Ord 1) (Ord 1) mixed_model.
Proof.
  assert (0 < norm linear2 (Ord 1) (Ord 1)) as Hpos
    by (rewrite norm_linear2; lra).
  constructor; [done | |].
  - constructor; [done |]. constructor; [intros [=] | constructor].
  - constructor; [intros [=] |]. constructor; [| constructor]. intros _.
    constructor; [done | |].
    + constructor; [done | constructor].
    + constructor; [intros [=] | constructor].
Qed.

(** X1: on a model that [calc_norm] walks without exception (iterable
    containers, layers of positive norm), it returns [exp result] times the
    product of the l_pq norms of the layers among the direct children of
    the model; the layers further down do not enter. *)
Theorem calc_norm_returns_direct_product (p q : order) (m : nn_module)
  (result : R) :
  walks p q m ->
  calc_norm m p q result =
    Ok (exp result * prod_R (map (fun l => norm l p q) (direct_layers m))).
Proof.
  revert result. induction m as [name w ch IH] using nn_module_children_ind.
  intros result Hw. inversion Hw as [? ? ? Hit Hl Ho]; subst.
  rewrite calc_norm_unfold, Hit. unfold direct_layers, children.
  apply calc_norm_loop_direct; [done |].
  clear Hw Hl Hit result.
  induction ch as [| c ch IHch]; [constructor |].
  apply Forall_cons in IH as [IHc IH]. apply Forall_cons in Ho as [Hc Ho].
  constructor; [| by apply IHch].
  intros Hlayer r. eexists. by apply IHc, Hc.
Qed.

Lemma calc_norm_returns_direct_product_witness :
  calc_norm mixed_model (Ord 1) (Ord 1) 0 =
    Ok (exp 0 * prod_R (map (fun l => norm l (Ord 1) (Ord 1))
                          (direct_layers mixed_model))).
Proof.
  apply (calc_norm_returns_direct_product (Ord 1) (Ord 1) mixed_model 0).
  apply mixed_model_walks.
Defined.

(** A vector or matrix of zeros has the norm 0, at every order. *)
Lemma vec_norm_zeros (p : order) (v : list R) :
  Forall (fun x => x = 0) v -> vec_norm p v = 0.
Proof.
  intros Hv. destruct p as [[| n] |]; cbn [vec_norm].
  - unfold count_nonzero.
    replace (filter (fun x => x <> 0) v) with (@nil R); [done |].
    induction Hv as [| x v -> _ IH]; [done |].
    by rewrite filter_cons_False by (intros ?; done).
  - assert (sum_R (map (fun x => Rabs x ^ S n) v) = 0) as ->.
    { induction Hv as [| x v -> _ IH]; [done |].
      unfold sum_R in *. cbn [map foldr]. rewrite IH, Rabs_R0, pow_i by lia.
      lra. }
    unfold nth_root. destruct (Rlt_dec 0 0); [lra | done].
  - induction Hv as [| x v -> _ IH]; [done |].
    cbn [map foldr]. rewrite IH, Rabs_R0. apply Rmax_left. lra.
Qed.

Lemma norm_zeros (module : nn_module) (p q : order) :
  Forall (Forall (fun x => x = 0)) (weight module) -> norm module p q = 0.
Proof.
  intros Hw. unfold norm. apply vec_norm_zeros.
  induction Hw as [| row w Hrow _ IH]; constructor; [| done].
  by apply vec_norm_zeros.
Qed.

Lemma calc_norm_loop_app_walk self p q pre rest :
  Forall (fun c => is_layer (get_name c) = true -> 0 < norm c p q) pre ->
  Forall (fun c => is_layer (get_name c) = false ->
                   forall r, exists v, self c r = Ok v) pre ->
  forall result, exists result',
    calc_norm_loop self p q (pre ++ rest) result
      = calc_norm_loop self p q rest result'.
Proof.
  induction pre as [| c pre IH]; intros Hl Ho result; [by eexists |].
  apply Forall_cons in Hl as [Hc Hl]. apply Forall_cons in Ho as [Hc' Ho].
  cbn [app]. destruct (is_layer (get_name c)) eqn:Hlayer.
  - rewrite calc_norm_loop_layer by auto. by apply IH.
  - destruct (Hc' eq_refl result) as [v Hv].
    erewrite calc_norm_loop_other by eauto. by apply IH.
Qed.

Lemma walks_children_return p q ch :
  Forall (fun c => is_layer (get_name c) = false -> walks p q c) ch ->
  Forall (fun c => is_layer (get_name c) = false ->
                   forall r, exists v, calc_norm c p q r = Ok v) ch.
Proof.
  intros Hch. eapply Forall_impl; [exact Hch |].
  intros c Hc Hlayer r. eexists. by apply calc_norm_direct, Hc.
Qed.

(** X2: a layer among the direct children whose weight has rows, with
    entries if [p] is the infinite order, and is all zeros makes
    [calc_norm] raise a [ValueError] (the logarithm of the norm 0), when
    the children before it are walked without exception. *)
Theorem calc_norm_zero_layer_raises (p q : order) (name : string)
  (w : matrix) (pre rest : list nn_module) (child : nn_module)
  (result : R) :
  walks p q (NNModule name w pre) ->
  is_layer (get_name child) = true ->
  weight child <> [] ->
  row_norms_defined p (weight child) ->
  Forall (Forall (fun x => x = 0)) (weight child) ->
  calc_norm (NNModule name w (pre ++ child :: rest)) p q result
    = Raise ValueError.
Proof.
  intros Hw Hlayer Hrows _ Hzero. inversion Hw as [? ? ? Hit Hl Ho]; subst.
  rewrite calc_norm_unfold, Hit.
  destruct (calc_norm_loop_app_walk (fun c r => calc_norm c p q r) p q pre
              (child :: rest) Hl (walks_children_return _ _ _ Ho) result)
    as [result' ->].
  cbn [calc_norm_loop]. rewrite Hlayer. unfold view_rows.
  rewrite decide_False, bind_Ok by by destruct (weight child).
  rewrite math_log_nonpos; [done |]. rewrite norm_zeros by done. lra.
Qed.

Lemma calc_norm_zero_layer_raises_witness :
  calc_norm zero_layer_model (Ord 1) (Ord 1) 0 = Raise ValueError.
Proof.
  apply (calc_norm_zero_layer_raises (Ord 1) (Ord 1) "Sequential" [] [linear2]
           [] (NNModule "Linear" [[0; 0]] []) 0).
  - constructor; [done | |].
    + constructor; [| constructor]. intros _. rewrite norm_linear2. lra.
    + constructor; [intros [=] | constructor].
  - reflexivity.
  - done.
  - intros [=].
  - constructor; [| constructor]. constructor; [done |].
    constructor; [done | constructor].
Defined.

Lemma op_norm_linear2_row : op_norm svd_S_row linear2 OrdInf = 2.
Proof.
  unfold op_norm. change (weight linear2) with [[2]].
  rewrite svd_S_row_linear2, vec_norm_inf_singleton. apply Rabs_pos_eq. lra.
Qed.

(** X3: on a model that [calc_spectral_norm] walks without exception it
    returns [exp result] times the product of [op_norm] over the layers
    among the direct children of the model. *)
Theorem calc_spectral_norm_returns_direct_product
  (svd_S : matrix -> list R) (p : order) (m : nn_module) (result : R) :
  walks_spectral svd_S p m ->
  calc_spectral_norm svd_S m p result =
    Ok (exp result
        * prod_R (map (fun l => op_norm svd_S l p) (direct_layers m))).
Proof.
  revert result. induction m as [name w ch IH] using nn_module_children_ind.
  intros result Hw. inversion Hw as [? ? ? Hl Ho]; subst.
  rewrite calc_spectral_norm_unfold. unfold direct_layers, children.
  apply calc_spectral_norm_loop_direct; [done |].
  clear Hw Hl result.
  induction ch as [| c ch IHch]; [constructor |].
  apply Forall_cons in IH as [IHc IH]. apply Forall_cons in Ho as [Hc Ho].
  constructor; [| by apply IHch].
  intros Hlayer r. eexists. by apply IHc, Hc.
Qed.

Lemma calc_spectral_norm_returns_direct_product_witness :
  calc_spectral_norm svd_S_row mixed_model OrdInf 0 =
    Ok (exp 0
        * prod_R (map (fun l => op_norm svd_S_row l OrdInf)
                    (direct_layers mixed_model))).
Proof.
  apply (calc_spectral_norm_returns_direct_product svd_S_row OrdInf
           mixed_model 0).
  assert (0 < op_norm svd_S_row linear2 OrdInf) as Hpos
    by (rewrite op_norm_linear2_row; lra).
  constructor.
  - constructor; [done |]. constructor; [intros [=] | constructor].
  - constructor; [intros [=] |]. constructor; [| constructor]. intros _.
    constructor.
    + constructor; [done | constructor].
    + constructor; [intros [=] | constructor].
Defined.

(** ** Depth and number of parameters *)

Lemma get_depth_loop_count self cs :
  forall result,
    get_depth_loop self cs result
      = (result + length (filter (fun c => is_layer (get_name c) = true) cs))%nat.
Proof.
  induction cs as [| c cs IH]; intros result; cbn [get_depth_loop].
  - cbn. lia.
  - destruct (is_layer (get_name c)) eqn:Hlayer.
    + rewrite IH, filter_cons_True by done. unfold depth. cbn [length]. lia.
    + rewrite IH, filter_cons_False by congruence. done.
Qed.

(** X4: [get_depth] returns the number of layers among the direct
    children of the model, which is at most the number of layers of the
    model: the depth of the containers below is dropped. *)
Theorem get_depth_counts_direct_layers (model : nn_module) :
  get_depth model = length (direct_layers model)
  /\ (get_depth model <= length (layers model))%nat.
Proof.
  assert (get_depth model = length (direct_layers model)) as Heq.
  { destruct model as [name w ch]. cbn [get_depth].
    by rewrite get_depth_loop_count. }
  split; [done |]. rewrite Heq. clear Heq.
  destruct model as [name w ch]. unfold direct_layers, children.
  cbn [layers]. induction ch as [| c ch IH]; [done |].
  cbn [flat_map]. rewrite length_app.
  destruct (is_layer (get_name c)) eqn:Hlayer.
  - rewrite filter_cons_True by done. cbn [length]. lia.
  - rewrite filter_cons_False by congruence. lia.
Qed.

Lemma get_npara_loop_sum (bias : nn_module -> option (list R))
  (cs : list nn_module) :
  Forall (fun l => weight l <> [])
    (filter (fun c => is_layer (get_name c) = true) cs) ->
  forall result,
    get_npara_loop bias cs result
    = Ok (result
          + sum_list
              (map (fun l => (from_option length 0%nat (bias l)
                              + length (weight l)
                                * length (hd [] (weight l)))%nat)
                 (filter (fun c => is_layer (get_name c) = true) cs)))%nat.
Proof.
  induction cs as [| c cs IH]; intros Hcs result; cbn [get_npara_loop].
  - cbn. f_equal. lia.
  - destruct (is_layer (get_name c)) eqn:Hlayer.
    + rewrite filter_cons_True in Hcs |- * by done.
      apply Forall_cons in Hcs as [Hc Hcs].
      unfold n_param at 1.
      destruct (weight c) as [| row w'] eqn:Hw; [done |].
      rewrite bind_Ok, (IH Hcs). cbn [map sum_list sum_list_with hd].
      f_equal. unfold Datatypes.id at 2. rewrite Hw. cbn [hd].
      destruct (bias c); cbn [from_option]; lia.
    + rewrite filter_cons_False in Hcs |- * by congruence.
      by rewrite (IH Hcs).
Qed.

(** X5: when the layers among the direct children have a weight with at
    least one row, [get_npara] returns the sum over these layers of the
    length of the bias plus rows times columns of the weight; layers
    further down are not counted. *)
Theorem get_npara_counts_direct_layers (bias : nn_module -> option (list R))
  (model : nn_module) :
  Forall (fun l => weight l <> []) (direct_layers model) ->
  get_npara bias model =
    Ok (sum_list
          (map (fun l => (from_option length 0%nat (bias l)
                          + length (weight l) * length (hd [] (weight l)))%nat)
             (direct_layers model))).
Proof.
  intros Hw. unfold get_npara. by rewrite get_npara_loop_sum.
Qed.

Lemma get_npara_counts_direct_layers_witness :
  get_npara (fun _ => Some [1; 1]) mixed_model = Ok 3%nat.
Proof.
  rewrite (get_npara_counts_direct_layers (fun _ => Some [1; 1]) mixed_model).
  - reflexivity.
  - constructor; [done | constructor].
Defined.

(** ** Distances *)

(** X6: [h_dist] and [h_dist_op_norm] raise a [TypeError] on every
    input: [h_dist] calls [n_hidden], which takes two arguments, with
    one. *)
Theorem h_dist_raises_TypeError (module init_module : nn_module)
  (p q p_op : order) :
  h_dist module init_module p q = Raise TypeError
  /\ h_dist_op_norm module init_module p q p_op = Raise TypeError.
Proof. split; reflexivity. Qed.

Lemma tensor_sub_self (a : matrix) :
  tensor_sub a a = Ok (map (map (fun _ => 0)) a).
Proof.
  unfold tensor_sub. rewrite bool_decide_eq_true_2 by done. f_equal.
  induction a as [| row a IH]; [done |]. cbn [zip_with map]. rewrite IH. f_equal.
  clear. induction row as [| x row IH]; [done |].
  cbn [zip_with map]. rewrite IH. f_equal. lra.
Qed.

Lemma view_rows_ok (t : matrix) (rows : nat) :
  rows <> 0%nat -> view_rows t rows = Ok t.
Proof. intros Hr. unfold view_rows. by rewrite decide_False. Qed.

Lemma length_weight_nonzero (module : nn_module) :
  weight module <> [] -> length (weight module) <> 0%nat.
Proof. by destruct (weight module). Qed.

(** X7: the distance of a module, whose weight has rows, with entries if
    [p] is the infinite order, from itself is 0, at every pair of
    orders. *)
Theorem distance_self_zero (module : nn_module) (p q : order) :
  weight module <> [] ->
  row_norms_defined p (weight module) ->
  distance module module p q = Ok 0.
Proof.
  intros Hrows _. unfold distance. rewrite tensor_sub_self, bind_Ok.
  rewrite view_rows_ok, bind_Ok by by apply length_weight_nonzero.
  f_equal. apply vec_norm_zeros. clear Hrows.
  induction (weight module) as [| row a IH]; [constructor |].
  cbn [map]. constructor; [| exact IH].
  apply vec_norm_zeros. clear. induction row; by constructor.
Qed.

Lemma distance_self_zero_witness :
  distance linear2 linear2 OrdInf (Ord 1) = Ok 0.
Proof.
  apply (distance_self_zero linear2 OrdInf (Ord 1)); [done |].
  intros _. by repeat constructor.
Defined.

(** The norm of a vector does not see the signs of its entries. *)
Lemma vec_norm_opp (p : order) (v : list R) :
  vec_norm p (map Ropp v) = vec_norm p v.
Proof.
  destruct p as [[| n] |]; cbn [vec_norm].
  - f_equal. unfold count_nonzero.
    induction v as [| x v IH]; [done |]. cbn [map].
    destruct (decide (x = 0)) as [-> | Hx].
    + rewrite !filter_cons_False; [done | by intros ? | intros Hne; apply Hne; lra].
    + rewrite !filter_cons_True; [cbn; by f_equal | done | lra].
  - f_equal. f_equal. rewrite map_map. apply map_ext. intros x.
    by rewrite Rabs_Ropp.
  - f_equal. rewrite map_map. apply map_ext. intros x. by rewrite Rabs_Ropp.
Qed.

Lemma zip_with_Rminus_swap (a b : list R) :
  zip_with Rminus a b = map Ropp (zip_with Rminus b a).
Proof.
  revert b. induction a as [| x a IH]; intros [| y b]; try done.
  cbn [zip_with map]. rewrite IH. f_equal. lra.
Qed.

(** X8: for two modules whose weights have the same shape, [distance] is
    symmetric. *)
Theorem distance_symmetric (module init_module : nn_module) (p q : order) :
  map length (weight module) = map length (weight init_module) ->
  distance module init_module p q = distance init_module module p q.
Proof.
  intros Heq. unfold distance, tensor_sub.
  rewrite !bool_decide_eq_true_2 by done. rewrite !bind_Ok.
  assert (length (weight init_module) = length (weight module)) as ->.
  { apply (f_equal length) in Heq. by rewrite !length_map in Heq. }
  unfold view_rows. destruct (decide (length (weight module) = 0%nat)); [done |].
  rewrite !bind_Ok. do 2 f_equal.
  clear -Heq. revert Heq. generalize (weight init_module) as b.
  induction (weight module) as [| row a IH]; intros [| row' b] Heq; try done.
  cbn in Heq. injection Heq as _ Heq.
  cbn [zip_with map]. rewrite (IH _ Heq). f_equal.
  by rewrite zip_with_Rminus_swap, vec_norm_opp.
Qed.

Lemma distance_symmetric_witness :
  distance linear2 (NNModule "Linear" [[0]] []) (Ord 1) OrdInf
    = distance (NNModule "Linear" [[0]] []) linear2 (Ord 1) OrdInf.
Proof.
  by apply (distance_symmetric linear2 (NNModule "Linear" [[0]] [])).
Defined.

(** X9: the distance of a module, whose weight has rows, with entries if
    [p] is the infinite order, from an initial module whose weight is all
    zeros, of the same shape, is the l_pq norm of the module. *)
Theorem distance_from_zeros_is_norm (module init_module : nn_module)
  (p q : order) :
  weight module <> [] ->
  row_norms_defined p (weight module) ->
  map length (weight init_module) = map length (weight module) ->
  Forall (Forall (fun x => x = 0)) (weight init_module) ->
  distance module init_module p q = Ok (norm module p q).
Proof.
  intros Hrows _ Hshape Hzero. unfold distance, tensor_sub, norm.
  rewrite bool_decide_eq_true_2, bind_Ok by done.
  rewrite view_rows_ok, bind_Ok by by apply length_weight_nonzero.
  do 3 f_equal. clear Hrows.
  revert Hshape Hzero. generalize (weight init_module) as b.
  induction (weight module) as [| row a IH]; intros [| row' b] Hshape Hzero;
    try done.
  cbn in Hshape. injection Hshape as Hlen Hshape.
  apply Forall_cons in Hzero as [Hrow Hzero].
  cbn [zip_with]. rewrite IH by done. f_equal.
  clear -Hlen Hrow. revert row' Hlen Hrow.
  induction row as [| x row IH]; intros [| y row'] Hlen Hrow; try done.
  apply Forall_cons in Hrow as [-> Hrow]. cbn in Hlen.
  cbn [zip_with]. rewrite IH by (done || lia). f_equal. lra.
Qed.

Lemma distance_from_zeros_is_norm_witness :
  distance linear2 (NNModule "Linear" [[0]] []) OrdInf (Ord 1)
    = Ok (norm linear2 OrdInf (Ord 1)).
Proof.
  apply (distance_from_zeros_is_norm linear2 (NNModule "Linear" [[0]] [])).
  - done.
  - intros _. by repeat constructor.
  - reflexivity.
  - constructor; [| constructor]. constructor; [done | constructor].
Defined.

(** ** Labels that are not classes, and the range of the error *)

(** The masking loop stops at the first label that is not a class. *)
Lemma mask_targets_out_of_range (pre rows rest : list (list R))
  (row : list R) (tgt trest : list nat) (t : nat) :
  Forall2 (fun row t => (t < length row)%nat) rows tgt ->
  row <> [] ->
  (length row <= t)%nat ->
  mask_targets (pre ++ rows ++ row :: rest) (length pre) (tgt ++ t :: trest)
    = Raise IndexError.
Proof.
  intros Hwf Hrow Ht. revert pre.
  induction Hwf as [| r0 t0 rows tgt Ht0 _ IH]; intros pre.
  - cbn [app mask_targets]. unfold mask_row.
    rewrite list_lookup_middle by done.
    rewrite row_min_ok, bind_Ok by done.
    by rewrite decide_False by lia.
  - cbn [app mask_targets]. unfold mask_row at 1.
    rewrite list_lookup_middle by done.
    rewrite row_min_ok by (intros ->; cbn in Ht0; lia).
    rewrite bind_Ok, decide_True, bind_Ok by done.
    rewrite insert_app_r_alt, Nat.sub_diag by lia. cbn [insert list_insert].
    replace (pre ++ <[t0:=min_of r0]> r0 :: rows ++ row :: rest)
      with ((pre ++ [masked r0 t0]) ++ rows ++ row :: rest)
      by by rewrite <- app_assoc.
    replace (S (length pre)) with (length (pre ++ [masked r0 t0]))
      by (rewrite length_app; cbn; lia).
    apply IH.
Qed.

Lemma step_out_of_range {input : Type} (model : input -> list R)
  (criterion : list (list R) -> list nat -> R) (a : acc)
  (good rest : batch input) (x : input) (t : nat) :
  labelled model good ->
  Forall (fun e => model e.1 <> []) (good ++ (x, t) :: rest) ->
  (length (model x) <= t)%nat ->
  step model criterion a (good ++ (x, t) :: rest) = Raise IndexError.
Proof.
  intros Hgood Hrows Ht. unfold step.
  rewrite mapM_row_argmax_ok, bind_Ok.
  - unfold batch_margin, data, target.
    rewrite !fmap_app. cbn [fmap list_fmap map fst snd].
    pose proof (mask_targets_out_of_range [] (model <$> good.*1)
                  (model <$> rest.*1) (model x) good.*2 rest.*2 t) as Hmask.
    cbn [app length] in Hmask. rewrite Hmask; [done | | |done].
    + exact (labelled_rows model good Hgood).
    + apply Forall_app in Hrows as [_ Hrows].
      by apply Forall_cons in Hrows as [Hx _].
  - unfold data. clear -Hrows.
    induction Hrows as [| e b He _ IH]; constructor; done.
Qed.

Lemma run_out_of_range {input : Type} (model : input -> list R)
  (criterion : list (list R) -> list nat -> R)
  (before after : list (batch input)) (b : batch input) :
  Forall (labelled model) before ->
  (forall a, step model criterion a b = Raise IndexError) ->
  forall a, run model criterion a (before ++ b :: after) = Raise IndexError.
Proof.
  intros Hbefore Hb. induction Hbefore as [| b0 before Hb0 _ IH]; intros a.
  - cbn [app run]. by rewrite Hb.
  - cbn [app run]. rewrite (step_ok _ _ _ _ Hb0), bind_Ok. apply IH.
Qed.

(** X10: when the batches before are well labelled and a batch, whose
    rows of scores are not empty, holds after well labelled examples one
    whose label is not below the number of classes, both [validate]
    functions raise an [IndexError]. *)
Theorem validate_label_out_of_range_raises {input : Type}
  (model : input -> list R) (criterion : list (list R) -> list nat -> R)
  (ld : loader input) (before after : list (batch input))
  (good rest : batch input) (x : input) (t : nat) :
  batches ld = before ++ (good ++ (x, t) :: rest) :: after ->
  Forall (labelled model) before ->
  labelled model good ->
  Forall (fun e => model e.1 <> []) (good ++ (x, t) :: rest) ->
  (length (model x) <= t)%nat ->
  Train.validate model ld criterion = Raise IndexError
  /\ Main.validate model ld criterion = Raise IndexError.
Proof.
  intros Hb Hbefore Hgood Hrows Ht.
  assert (run model criterion (Acc 0 0 []) (batches ld) = Raise IndexError)
    as Hrun.
  { rewrite Hb. apply run_out_of_range; [done |].
    intros a. by apply step_out_of_range. }
  unfold Train.validate, Main.validate. by rewrite Hrun.
Qed.

Lemma validate_label_out_of_range_raises_witness :
  Train.validate three_scores (Loader [[(0%nat, 1%nat); (1%nat, 3%nat)]] 2 2)
    first_score = Raise IndexError
  /\ Main.validate three_scores (Loader [[(0%nat, 1%nat); (1%nat, 3%nat)]] 2 2)
       first_score = Raise IndexError.
Proof.
  apply (validate_label_out_of_range_raises three_scores first_score
           (Loader [[(0%nat, 1%nat); (1%nat, 3%nat)]] 2 2)
           [] [] [(0%nat, 1%nat)] [] 1%nat 3%nat).
  - reflexivity.
  - constructor.
  - constructor; [cbn; lia | constructor].
  - constructor; [done |]. constructor; [done | constructor].
  - cbn. lia.
Defined.

Lemma accuracy_between_0_and_1 {input : Type} (model : input -> list R)
  (ld : loader input) :
  examples ld <> [] -> 0 <= accuracy model ld <= 1.
Proof.
  intros Hne. unfold accuracy.
  assert (0 < INR (length (examples ld))) as Hpos.
  { apply lt_0_INR. destruct (examples ld); [done | cbn; lia]. }
  pose proof (length_filter (correct model) (examples ld)) as Hle.
  apply le_INR in Hle.
  pose proof (pos_INR (length (filter (correct model) (examples ld)))).
  split.
  - apply Rmult_le_pos; [done |]. left. by apply Rinv_0_lt_compat.
  - replace 1 with (INR (length (examples ld)) * / INR (length (examples ld)))
      by (apply Rinv_r; lra).
    apply Rmult_le_compat_r; [| done]. left. by apply Rinv_0_lt_compat.
Qed.

Lemma validate_result {input : Type} (model : input -> list R)
  (criterion : list (list R) -> list nat -> R) (ld : loader input) :
  Forall (labelled model) (batches ld) ->
  examples ld <> [] ->
  (sampler_len ld = length (examples ld) ->
   Train.validate model ld criterion =
     Ok (1 - accuracy model ld, average_loss model criterion ld,
         percentile (map (fun e => margin_of (model e.1) e.2) (examples ld)) 5))
  /\ (dataset_len ld = length (examples ld) ->
      Main.validate model ld criterion =
        Ok (1 - accuracy model ld, average_loss model criterion ld,
            percentile (map (fun e => margin_of (model e.1) e.2) (examples ld))
              5)).
Proof.
  intros Hl Hne.
  assert (INR (length (examples ld)) <> 0) as Hlen.
  { apply not_0_INR. by destruct (examples ld). }
  assert (length (examples ld) <> 0)%nat as Hlen' by by destruct (examples ld).
  split; intros Hn.
  - unfold Train.validate. rewrite (run_ok _ _ _ Hl), bind_Ok.
    cbn [sum_loss sum_correct margin app].
    rewrite decide_False by lia. rewrite Hn.
    rewrite !truediv_nonzero, !bind_Ok by done.
    unfold accuracy, average_loss, examples. by rewrite Rplus_0_l.
  - unfold Main.validate. rewrite (run_ok _ _ _ Hl), bind_Ok.
    cbn [sum_loss sum_correct margin app]. rewrite Hn.
    rewrite !truediv_nonzero, !bind_Ok by done.
    unfold accuracy, average_loss, examples. by rewrite Rplus_0_l.
Qed.

(** X11: when every label is a class of the scores of its example and
    the loader yields as many examples, at least one, as the length
    [validate] divides by, the error it returns lies between 0 and 1. *)
Theorem validate_error_between_0_and_1 {input : Type}
  (model : input -> list R) (criterion : list (list R) -> list nat -> R)
  (ld : loader input) :
  Forall (labelled model) (batches ld) ->
  examples ld <> [] ->
  (sampler_len ld = length (examples ld) ->
   exists err loss mg,
     Train.validate model ld criterion = Ok (err, loss, mg)
     /\ 0 <= err <= 1)
  /\ (dataset_len ld = length (examples ld) ->
      exists err loss mg,
        Main.validate model ld criterion = Ok (err, loss, mg)
        /\ 0 <= err <= 1).
Proof.
  intros Hl Hne.
  destruct (validate_result model criterion ld Hl Hne) as [Htrain Hmain].
  pose proof (accuracy_between_0_and_1 model ld Hne) as Hacc.
  split; intros Hn; do 3 eexists; (split; [eauto |]); lra.
Qed.

Lemma two_loader_labelled : Forall (labelled three_scores) (batches two_loader).
Proof.
  constructor; [| constructor].
  constructor; [cbn; lia |]. constructor; [cbn; lia | constructor].
Qed.

Lemma validate_error_between_0_and_1_witness :
  (exists err loss mg,
     Train.validate three_scores two_loader first_score = Ok (err, loss, mg)
     /\ 0 <= err <= 1)
  /\ (exists err loss mg,
        Main.validate three_scores two_loader first_score = Ok (err, loss, mg)
        /\ 0 <= err <= 1).
Proof.
  destruct (validate_error_between_0_and_1 three_scores first_score two_loader)
    as [Htrain Hmain].
  - apply two_loader_labelled.
  - discriminate.
  - split; [apply Htrain | apply Hmain]; reflexivity.
Defined.

(** ** Margins and correct classification *)

Lemma max_other_is_max (row : list R) (t : nat) (best : R) :
  max_other row t = Some best -> is_max (delete t row) best.
Proof.
  unfold max_other. destruct (delete t row) as [| x r]; [done |].
  intros [= <-]. apply foldr_Rmax_is_max.
Qed.

(** X12: for an example with a margin (its label among at least two
    classes): a positive margin means that the prediction of [validate],
    the first largest score, is the label, and a prediction equal to the
    label means a margin that is not negative. *)
Theorem margin_sign_and_correctness (row : list R) (t : nat) (g : R) :
  example_margin row t = Some g ->
  (0 < g -> row_argmax row = Ok t)
  /\ (row_argmax row = Ok t -> 0 <= g).
Proof.
  unfold example_margin. intros Hg.
  destruct (row !! t) as [s |] eqn:Hs; [| done]. cbn in Hg.
  destruct (max_other row t) as [best |] eqn:Hbest; [| done]. cbn in Hg.
  injection Hg as <-.
  apply max_other_is_max in Hbest as [Hin Hub].
  assert (row <> []) as Hrow by (intros ->; done).
  destruct (argmax_of_is_max row Hrow) as (m & Hm & Hmin & Hmub).
  rewrite row_argmax_ok by done.
  split.
  - intros Hpos. f_equal.
    destruct (decide (argmax_of row = t)) as [| Hne]; [done |]. exfalso.
    assert (m ∈ delete t row) as Hmd.
    { destruct (decide (argmax_of row < t)%nat) as [Hlt | Hge].
      - eapply list_elem_of_lookup_2. by rewrite list_lookup_delete_lt.
      - apply (list_elem_of_lookup_2 _ (pred (argmax_of row))).
        rewrite list_lookup_delete_ge by lia.
        by replace (S (pred (argmax_of row))) with (argmax_of row) by lia. }
    specialize (Hub m Hmd).
    assert (s <= m) by (apply Hmub; by eapply list_elem_of_lookup_2).
    lra.
  - intros [= Hk]. rewrite Hk, Hs in Hm. injection Hm as <-.
    assert (best <= s) by (apply Hmub; by eapply list_elem_of_delete_inv).
    lra.
Qed.

Lemma margin_sign_and_correctness_witness :
  row_argmax [3; 1; 2] = Ok 0%nat /\ 0 <= 3 - Rmax 2 1.
Proof.
  destruct (margin_sign_and_correctness [3; 1; 2] 0 (3 - Rmax 2 1))
    as [Hpos Hcorrect]; [reflexivity |].
  assert (row_argmax [3; 1; 2] = Ok 0%nat) as Hargmax.
  { apply Hpos. rewrite Rmax_left by lra. lra. }
  split; [exact Hargmax | exact (Hcorrect Hargmax)].
Defined.

(** ** The percentile *)

Lemma Rle_total : Total Rle.
Proof. intros x y. destruct (Rle_dec x y); [by left | right; lra]. Qed.

Lemma Rle_transitive : Transitive Rle.
Proof. intros x y z. apply Rle_trans. Qed.

Lemma StronglySorted_lookup_le (s : list R) (i j : nat) (x y : R) :
  StronglySorted Rle s -> (i <= j)%nat ->
  s !! i = Some x -> s !! j = Some y -> x <= y.
Proof.
  intros Hs. revert i j.
  induction Hs as [| z s _ IH Hz]; intros i j Hij Hi Hj; [done |].
  destruct i as [| i], j as [| j]; cbn in Hi, Hj.
  - injection Hi as <-. injection Hj as <-. lra.
  - injection Hi as <-. rewrite Forall_forall in Hz.
    apply Hz. by eapply list_elem_of_lookup_2.
  - lia.
  - apply (IH i j); [lia | done | done].
Qed.

(** A percentile of data that is not empty lies between two of the
    data. *)
Lemma percentile_between (a : list R) (q : nat) :
  a <> [] -> (q <= 100)%nat ->
  exists r x y,
    percentile a q = Some r /\ x ∈ a /\ y ∈ a /\ x <= r <= y.
Proof.
  intros Ha Hq. unfold percentile.
  pose proof (merge_sort_Permutation Rle a) as Hperm.
  pose proof Rle_total as Htotal. pose proof Rle_transitive as Htrans.
  pose proof (StronglySorted_merge_sort Rle a) as Hsorted.
  set (s := merge_sort Rle a) in *.
  assert (length s = length a) as Hlen by by apply Permutation_length.
  destruct (length s) as [| n1] eqn:Hs.
  { destruct a; [done | cbn in Hlen; lia]. }
  set (lo := (q * n1 / 100)%nat). set (hi := Nat.min (lo + 1) n1).
  assert (lo <= n1)%nat as Hlo.
  { unfold lo. apply Nat.Div0.div_le_upper_bound. nia. }
  assert (lo <= hi <= n1)%nat as Hhi by (unfold hi; lia).
  destruct (lookup_lt_is_Some_2 s lo) as [x Hx]; [lia |].
  destruct (lookup_lt_is_Some_2 s hi) as [y Hy]; [lia |].
  rewrite (nth_lookup_Some _ _ _ _ Hx), (nth_lookup_Some _ _ _ _ Hy).
  assert (x <= y) as Hxy by (eapply (StronglySorted_lookup_le s lo hi); [done | lia | done | done]).
  assert (0 <= INR ((q * n1) mod 100) / 100 < 1) as Hfrac.
  { pose proof (Nat.mod_upper_bound (q * n1) 100 ltac:(lia)) as Hm.
    pose proof (pos_INR ((q * n1) mod 100)) as H0.
    apply lt_INR in Hm. rewrite (INR_IZR_INZ 100) in Hm.
    change (Z.of_nat 100) with 100%Z in Hm. lra. }
  exists (x + INR ((q * n1) mod 100) / 100 * (y - x)), x, y.
  split; [done |].
  split; [rewrite <- Hperm; by eapply list_elem_of_lookup_2 |].
  split; [rewrite <- Hperm; by eapply list_elem_of_lookup_2 |].
  nra.
Qed.

(** X13: under the conditions of X11 the margin that [validate] returns,
    the 5th percentile, lies between the margins of two examples of the
    loader. *)
Theorem validate_margin_between_margins {input : Type}
  (model : input -> list R) (criterion : list (list R) -> list nat -> R)
  (ld : loader input) :
  Forall (labelled model) (batches ld) ->
  examples ld <> [] ->
  (sampler_len ld = length (examples ld) ->
   exists err loss r e1 e2,
     Train.validate model ld criterion = Ok (err, loss, Some r)
     /\ e1 ∈ examples ld /\ e2 ∈ examples ld
     /\ margin_of (model e1.1) e1.2 <= r <= margin_of (model e2.1) e2.2)
  /\ (dataset_len ld = length (examples ld) ->
      exists err loss r e1 e2,
        Main.validate model ld criterion = Ok (err, loss, Some r)
        /\ e1 ∈ examples ld /\ e2 ∈ examples ld
        /\ margin_of (model e1.1) e1.2 <= r <= margin_of (model e2.1) e2.2).
Proof.
  intros Hl Hne.
  destruct (validate_result model criterion ld Hl Hne) as [Htrain Hmain].
  destruct (percentile_between
              (map (fun e => margin_of (model e.1) e.2) (examples ld)) 5)
    as (r & x & y & Hr & Hx & Hy & Hxy); [by destruct (examples ld) | lia |].
  apply list_elem_of_fmap in Hx as (e1 & -> & He1).
  apply list_elem_of_fmap in Hy as (e2 & -> & He2).
  split; intros Hn; exists (1 - accuracy model ld),
    (average_loss model criterion ld), r, e1, e2;
    (split; [| done]); rewrite <- Hr; eauto.
Qed.

Lemma validate_margin_between_margins_witness :
  (exists err loss r e1 e2,
     Train.validate three_scores two_loader first_score = Ok (err, loss, Some r)
     /\ e1 ∈ examples two_loader /\ e2 ∈ examples two_loader
     /\ margin_of (three_scores e1.1) e1.2 <= r
        <= margin_of (three_scores e2.1) e2.2)
  /\ (exists err loss r e1 e2,
        Main.validate three_scores two_loader first_score
          = Ok (err, loss, Some r)
        /\ e1 ∈ examples two_loader /\ e2 ∈ examples two_loader
        /\ margin_of (three_scores e1.1) e1.2 <= r
           <= margin_of (three_scores e2.1) e2.2).
Proof.
  destruct (validate_margin_between_margins three_scores first_score
              two_loader) as [Htrain Hmain].
  - apply two_loader_labelled.
  - discriminate.
  - split; [apply Htrain | apply Hmain]; reflexivity.
Defined.

(** ** The PAC-Bayes term: errors and a lower bound *)

(** X14: [PAC_KL] raises a [ZeroDivisionError] for a training set of
    size 0; for a size that is not 0 it raises a [TypeError] for a float
    sigma, and a [ZeroDivisionError] for sigma = 2 (whose exclusive or with
    2 is 0) and for delta = 0 with the default sigma = 1. *)
Theorem PAC_KL_errors (tr_loss exp_sharpness l2_reg setsize delta x : R)
  (sigma : pynum) :
  setsize <> 0 ->
  PAC_KL tr_loss exp_sharpness l2_reg 0 sigma delta = Raise ZeroDivisionError
  /\ PAC_KL tr_loss exp_sharpness l2_reg setsize (PyFloat x) delta
       = Raise TypeError
  /\ PAC_KL tr_loss exp_sharpness l2_reg setsize (PyInt 2) delta
       = Raise ZeroDivisionError
  /\ PAC_KL tr_loss exp_sharpness l2_reg setsize (PyInt 1) 0
       = Raise ZeroDivisionError.
Proof.
  intros Hn. split; [| split; [| split]].
  - unfold PAC_KL. by rewrite truediv_zero.
  - unfold PAC_KL. by rewrite (truediv_nonzero 1 setsize), bind_Ok.
  - unfold PAC_KL. rewrite (truediv_nonzero 1 setsize), bind_Ok by done.
    cbn [xor]. rewrite bind_Ok. change (Z.lxor 2 2) with 0%Z.
    by rewrite Rmult_0_r, truediv_zero.
  - unfold PAC_KL. rewrite (truediv_nonzero 1 setsize), bind_Ok by done.
    cbn [xor]. rewrite bind_Ok. change (Z.lxor 1 2) with 3%Z.
    rewrite (truediv_nonzero l2_reg), bind_Ok by lra.
    by rewrite truediv_zero.
Qed.

Lemma PAC_KL_errors_witness :
  PAC_KL 0 0 1 0 (PyInt 1) (1 / 5) = Raise ZeroDivisionError
  /\ PAC_KL 0 0 1 1 (PyFloat (1 / 2)) (1 / 5) = Raise TypeError
  /\ PAC_KL 0 0 1 1 (PyInt 2) (1 / 5) = Raise ZeroDivisionError
  /\ PAC_KL 0 0 1 1 (PyInt 1) 0 = Raise ZeroDivisionError.
Proof.
  apply (PAC_KL_errors 0 0 1 1 (1 / 5) (1 / 2) (PyInt 1)). lra.
Defined.

(** X15: whenever [PAC_KL] returns, the bound is at least the training
    loss plus the expected sharpness. *)
Theorem PAC_KL_at_least_loss_and_sharpness
  (tr_loss exp_sharpness l2_reg setsize delta v : R) (sigma : pynum) :
  PAC_KL tr_loss exp_sharpness l2_reg setsize sigma delta = Ok v ->
  tr_loss + exp_sharpness <= v.
Proof.
  unfold PAC_KL. intros Hv.
  destruct (truediv 1 setsize) as [a | e]; [| done]. rewrite bind_Ok in Hv.
  destruct (xor sigma 2) as [x | e]; [| done]. rewrite bind_Ok in Hv.
  destruct (truediv l2_reg (2 * IZR x)) as [b | e]; [| done].
  rewrite bind_Ok in Hv.
  destruct (truediv (2 * setsize) delta) as [c | e]; [| done].
  rewrite bind_Ok in Hv.
  destruct (math_log c) as [l | e]; [| done]. rewrite bind_Ok in Hv.
  unfold math_sqrt in Hv. destruct (Rle_dec 0 (a * b + l)); [| done].
  rewrite bind_Ok in Hv. injection Hv as <-.
  pose proof (sqrt_pos (a * b + l)). lra.
Qed.

Lemma PAC_KL_at_least_loss_and_sharpness_witness :
  0 + 0 <= 4 * sqrt (1 + ln 10).
Proof.
  apply (PAC_KL_at_least_loss_and_sharpness 0 0 6 1 (2 / 10) _ (PyInt 1)).
  rewrite PAC_KL_int; [| lra | lra | lra | done].
  change (Z.lxor 1 2) with 3%Z. do 2 f_equal.
  replace (2 * 1 / (2 / 10)) with 10 by lra.
  rewrite !Rplus_0_l. do 2 f_equal. lra.
Defined.

(** ** The path norm: order 0 and order 1 *)

(** X16: with [p = 0], where the in-place operations are allowed (inside
    [torch.no_grad()], or when no parameter requires grad), on a model
    whose parameters are in the store, [lp_path_norm] raises a
    [ZeroDivisionError] (from [1 / p]). *)
Theorem lp_path_norm_order_0_raises (grad : bool) (model : torch_model)
  (prms : list parameter) (input_size : list nat) (h : gmap loc parameter) :
  in_place_allowed grad prms ->
  Forall2 (fun l prm => h !! l = Some prm) (parameters model) prms ->
  (lp_path_norm grad model 0 input_size h).2 = Raise ZeroDivisionError.
Proof.
  intros Hallowed Hprms.
  by rewrite (lp_path_norm_result _ _ _ _ _ _ Hallowed Hprms).
Qed.

Lemma lp_path_norm_order_0_raises_witness :
  (lp_path_norm false linear_unit 0 [2%nat] linear_store).2
    = Raise ZeroDivisionError.
Proof.
  apply (lp_path_norm_order_0_raises false linear_unit [linear_unit_weight]).
  - repeat constructor.
  - repeat constructor.
Defined.

Lemma powered_1_nonneg (prm : parameter) :
  Forall (fun w => 0 <= w) (Measures.data prm) ->
  powered 1 prm = Measures.data prm.
Proof.
  intros Hw. unfold powered. destruct (requires_grad prm); [| done].
  induction Hw as [| w ws Hw _ IH]; [done |].
  cbn [map]. rewrite IH. f_equal. rewrite pow_1. by apply Rabs_pos_eq.
Qed.

(** X17: with [p = 1], where the in-place operations are allowed (inside
    [torch.no_grad()], or when no parameter requires grad), on a model
    whose parameters are all non-negative, [lp_path_norm] returns the
    summed output of the model itself, in evaluation mode, on the all-ones
    input. *)
Theorem lp_path_norm_order_1_nonneg_weights (grad : bool)
  (model : torch_model) (prms : list parameter) (input_size : list nat)
  (h : gmap loc parameter) :
  in_place_allowed grad prms ->
  Forall2 (fun l prm => h !! l = Some prm) (parameters model) prms ->
  Forall (fun prm => Forall (fun w => 0 <= w) (Measures.data prm)) prms ->
  (lp_path_norm grad model 1 input_size h).2
    = Ok (Some (sum_R (forward model false (map Measures.data prms)
                         (ones input_size)))).
Proof.
  intros Hallowed Hprms Hnonneg.
  rewrite (lp_path_norm_result _ _ _ _ _ _ Hallowed Hprms).
  rewrite decide_False by lia. unfold pow_inv. rewrite decide_True by done.
  do 4 f_equal. clear Hprms Hallowed.
  induction Hnonneg as [| prm prms Hprm _ IH]; [done |].
  cbn [map]. by rewrite IH, powered_1_nonneg.
Qed.

Lemma lp_path_norm_order_1_nonneg_weights_witness :
  (lp_path_norm false linear_unit 1 [2%nat]
     {[ 1%positive := Param true [2; 1] ]}).2
    = Ok (Some (sum_R (forward linear_unit false [[2; 1]] (ones [2%nat])))).
Proof.
  apply (lp_path_norm_order_1_nonneg_weights false linear_unit
           [Param true [2; 1]]).
  - repeat constructor.
  - repeat constructor.
  - constructor; [| constructor].
    constructor; [lra |]. constructor; [lra | constructor].
Defined.

(** ** Which calls of main() reach the training *)

(** X18: [main()] of [main.py] reaches the training loop exactly when the
    model is ["vgg"], the training set size is -1 and the training set is
    not empty (on an empty one [RandomSampler] raises a [ValueError]); the
    network is then [vgg.Network] with 1 channel for MNIST and 3
    otherwise, 10 classes, and the sampler draws as many examples as the
    training set has. *)
Theorem main_py_trains_iff (a : Main.args) (len_train_dataset : nat)
  (m : net) (n : nat) :
  Main.main a len_train_dataset = Training m n
  <-> Main.model a = "vgg"%string
      /\ Main.trainingsetsize a = (-1)%Z
      /\ (0 < len_train_dataset)%nat
      /\ m = VGG (if String.eqb (Main.dataset a) "MNIST" then 1 else 3) 10
      /\ n = len_train_dataset.
Proof.
  unfold Main.main. split.
  - destruct (String.eqb_spec (Main.model a) "vgg") as [Hm | Hm]; [| done].
    destruct (Z.eqb_spec (Main.trainingsetsize a) (-1)) as [Hs | Hs]; [| done].
    destruct (decide (len_train_dataset = 0%nat)) as [H0 | H0]; [done |].
    intros [= <- <-]. repeat split; try done. lia.
  - intros (Hm & Hs & Hlen & -> & ->). rewrite Hm, Hs. cbn.
    rewrite decide_False by lia. done.
Qed.

(** X19: a run of [train.py] with a network argument other than ["vgg"]
    and ["fc"] stops on the [UnboundLocalError] of [model], a
    [NameError], at [model.to(device)]. *)
Theorem train_py_unknown_network_raises (b : Train.args) :
  Train.network b <> "vgg"%string ->
  Train.network b <> "fc"%string ->
  Train.main b = Raised (UnboundLocalError "model")
  /\ is_NameError (UnboundLocalError "model") = true.
Proof.
  intros Hv Hf. unfold Train.main. split; [| done].
  destruct (String.eqb_spec (Train.network b) "vgg"); [done |].
  by destruct (String.eqb_spec (Train.network b) "fc").
Qed.

Lemma train_py_unknown_network_raises_witness :
  Train.main (Train.Args "resnet" 500) = Raised (UnboundLocalError "model")
  /\ is_NameError (UnboundLocalError "model") = true.
Proof.
  apply (train_py_unknown_network_raises (Train.Args "resnet" 500)); done.
Defined.
